(** * EasyAuthServer: a shallow embedding of [easyauth/server.py]

    The development follows the class [EasyAuthServer]: the token
    bookkeeping ([issue_token], [is_valid_token], [revoke_token],
    [token_cleanup]), password validation ([validate_user_pw]), permission
    resolution ([get_user_permissions]), the permission gate of the wrapped
    endpoints ([router] / [mock_function]), the Google federation entry point
    ([generate_google_oauth_token]) and the key bootstrap ([key_setup]).

    Python code that awaits the database, reads the clock or raises is
    written in a state-and-exception monad over an explicit world. *)

From Stdlib Require Import ZArith List Ascii String Lia.
From stdpp Require Import base option list strings gmap fin_maps pretty.

Local Open Scope string_scope.
Local Open Scope Z_scope.

(** A permission dict: [{"users": [...], "groups": [...], ...}]. *)
Abbreviation permissions_dict := (gmap string (list string)).

(** ** Exceptions and results *)

(** The [detail] of an [HTTPException]: a fixed text, or the text
    ["not authorized, permissions required: "] followed by the required
    permission dict. *)
Inductive http_detail : Type :=
| Detail (text : string)
| PermissionsRequired (required : permissions_dict).

(** The exception classes that the modelled code raises or catches.  All of
    them derive from Python's [Exception]; [UnicodeError] stands for the
    [ValueError] subclasses. *)
Inductive exn : Type :=
| KeyError (key : string)
| IndexError
| ValueError (msg : string)
| UnicodeError (msg : string)
| TypeError (msg : string)
| AttributeError (msg : string)
| AssertionError (msg : string)
| FileNotFoundError (path : string)
| FileExistsError (path : string)
| PermissionError (path : string)
| IsADirectoryError (path : string)
| NotADirectoryError (path : string)
| IntegrityError (key : string)
| HTTPException (status_code : Z) (detail : http_detail)
| GoogleOauthNotEnabledOrConfigured
| GoogleOauthHeaderMalformed.

Inductive outcome (A : Type) : Type :=
| Ret (a : A)
| Raise (e : exn).
Arguments Ret {A} a.
Arguments Raise {A} e.

(** [except ValueError] catches [ValueError] and its subclasses. *)
Definition is_ValueError (e : exn) : bool :=
  match e with
  | ValueError _ | UnicodeError _ => true
  | _ => false
  end.

(** [except Exception] catches every class above. *)
Definition is_Exception (e : exn) : bool := true.

(** ** The monad: state passing with exceptions

    A raised exception keeps the state reached so far: rows written before
    the raise stay written. *)
Definition M (S A : Type) : Type := S -> outcome A * S.

Definition ret {S A} (a : A) : M S A := fun s => (Ret a, s).
Definition raise {S A} (e : exn) : M S A := fun s => (Raise e, s).
Definition bind {S A B} (c : M S A) (k : A -> M S B) : M S B :=
  fun s => match c s with
           | (Ret a, s') => k a s'
           | (Raise e, s') => (Raise e, s')
           end.
Definition lift {S A} (o : outcome A) : M S A := fun s => (o, s).
Definition get {S} : M S S := fun s => (Ret s, s).
Definition modify {S} (f : S -> S) : M S unit := fun s => (Ret tt, f s).

Notation "x <- c ;; k" := (bind c (fun x => k))
  (at level 100, c at next level, right associativity).
Notation "c ;;; k" := (bind c (fun _ => k))
  (at level 100, right associativity).

(** [try: body except <catches>: handler]. *)
Definition try_except {S A} (body : M S A) (catches : exn -> bool)
    (handler : exn -> M S A) : M S A :=
  fun s => match body s with
           | (Raise e, s') => if catches e then handler e s' else (Raise e, s')
           | r => r
           end.

(** A block of statements either falls through to the next statement or
    executes a [return]. *)
Inductive flow (A : Type) : Type :=
| Next
| Return (a : A).
Arguments Next {A}.
Arguments Return {A} a.

(** ** Data model *)

(** Modelled from the spec: the rows of [easyauth.models] ([Actions],
    [Roles], [Groups], [Users], [Tokens], [OauthConfig]) are declared outside
    [server.py]; the fields are the ones [server.py] reads and the shape is
    the authorization graph of the spec (User -> Groups -> Roles -> Actions). *)
Record Actions := { action : string }.
Record Roles := { role : string; actions : list Actions }.
Record Groups := { group_name : string; roles : list Roles }.
Record Users := {
  username : string;
  password : string;
  account_type : string;
  email : string;
  groups : list Groups }.

#[global] Instance Actions_eq_dec : EqDecision Actions.
Proof. solve_decision. Defined.
#[global] Instance Roles_eq_dec : EqDecision Roles.
Proof. solve_decision. Defined.
#[global] Instance Groups_eq_dec : EqDecision Groups.
Proof. solve_decision. Defined.
#[global] Instance Users_eq_dec : EqDecision Users.
Proof. solve_decision. Defined.

(** Datetimes are counted in microseconds; [isoformat] / [fromisoformat]
    are the two directions of the ISO text stored in a token row. *)
Inductive isotime : Type := Iso (t : Z).
Definition isoformat (t : Z) : isotime := Iso t.
Definition fromisoformat (s : isotime) : Z := match s with Iso t => t end.

(** [datetime.timedelta(minutes=, hours=, days=)] on whole numbers: the
    length of the interval in microseconds. *)
Definition timedelta (minutes hours days : Z) : Z :=
  (((days * 24 + hours) * 60 + minutes) * 60) * 1000000.

(** The ranges of Python's [datetime] module, with datetimes counted in
    microseconds from 1970-01-01T00:00:00: a [timedelta] holds at most
    999999999 days either way, a [datetime] lies in the years 1 to 9999.
    Outside them the constructor of [timedelta] and the addition of a
    [timedelta] to a [datetime] raise [OverflowError]; [timedelta] above and
    the sums formed with it are exact on these ranges only, and a statement
    that promises a normal return of such a sum assumes them. *)
Definition timedelta_in_range (delta : Z) : Prop :=
  -999999999 * 86400000000 <= delta < 1000000000 * 86400000000.
Definition datetime_in_range (t : Z) : Prop :=
  -719162 * 86400000000 <= t < 2932897 * 86400000000.

(** A row of the [Tokens] table; the primary key [token_id] is the key of
    the table. *)
Record Tokens := {
  tok_username : string;
  issued : isotime;
  expiration : isotime;
  token : permissions_dict }.

Record OauthConfig := {
  provider : string;
  client_id : string;
  enabled : bool;
  default_groups : list Groups }.

(** The server's key: [jwk.JWK] reduced to its identifier and its secret. *)
Record JWK := { kid : string; secret : Z }.

#[global] Instance JWK_eq_dec : EqDecision JWK.
Proof. solve_decision. Defined.

(** The claims that [issue_token] signs. *)
Record payload := {
  iss : string;
  sub : string;
  aud : string;
  token_id : string;
  permissions : permissions_dict }.

(** A signed token as its verifier reads it back: the claims, the [exp]
    stamp (whole seconds since 1970-01-01, or none), the algorithm and the
    key that signed it. *)
Record JWT := {
  claims : payload;
  exp : option Z;
  alg : string;
  signed_by : JWK }.

(** ** Logging

    One constructor per message the modelled methods format. *)
Inductive LogMsg : Type :=
| RevokingToken (tok : option Tokens)
| TokenCleanupCleared (removed_count : Z)
| ErrorValidatingUserPw (e : exn)
| AuthFailedInvalidCredentials (user : string)
| ErrorValidatingSocialLogin (e : exn)
| IsRequired (auth_type : string).

Inductive LogLevel : Type := WARNING | ERROR.

Definition LogRecord : Type := LogLevel * LogMsg.

(** ** The world of a running server

    [environ] is [os.environ]; the three tables are the database; [_privkey]
    is [self._privkey]; [clock_reads] and [uuid_draws] count how often the
    clock and the UUID generator were consulted; [log] is [self.log]. *)
Record World := {
  environ : gmap string string;
  Users_rows : list Users;
  Tokens_rows : gmap string Tokens;
  OauthConfig_rows : list OauthConfig;
  _privkey : JWK;
  clock_reads : nat;
  uuid_draws : nat;
  log : list LogRecord }.

Definition set_Tokens_rows (f : gmap string Tokens -> gmap string Tokens)
    (w : World) : World :=
  {| environ := environ w; Users_rows := Users_rows w;
     Tokens_rows := f (Tokens_rows w);
     OauthConfig_rows := OauthConfig_rows w; _privkey := _privkey w;
     clock_reads := clock_reads w; uuid_draws := uuid_draws w;
     log := log w |}.

Definition set_clock_reads (f : nat -> nat) (w : World) : World :=
  {| environ := environ w; Users_rows := Users_rows w;
     Tokens_rows := Tokens_rows w;
     OauthConfig_rows := OauthConfig_rows w; _privkey := _privkey w;
     clock_reads := f (clock_reads w); uuid_draws := uuid_draws w;
     log := log w |}.

Definition set_uuid_draws (f : nat -> nat) (w : World) : World :=
  {| environ := environ w; Users_rows := Users_rows w;
     Tokens_rows := Tokens_rows w;
     OauthConfig_rows := OauthConfig_rows w; _privkey := _privkey w;
     clock_reads := clock_reads w; uuid_draws := f (uuid_draws w);
     log := log w |}.

Definition set_log (f : list LogRecord -> list LogRecord) (w : World) : World :=
  {| environ := environ w; Users_rows := Users_rows w;
     Tokens_rows := Tokens_rows w;
     OauthConfig_rows := OauthConfig_rows w; _privkey := _privkey w;
     clock_reads := clock_reads w; uuid_draws := uuid_draws w;
     log := f (log w) |}.

(** [self.log.warning], [self.log.error], [self.log.exception] (the last
    one logs at level ERROR). *)
Definition log_warning (m : LogMsg) : M World unit :=
  modify (set_log (fun l => (l ++ [(WARNING, m)])%list)).
Definition log_error (m : LogMsg) : M World unit :=
  modify (set_log (fun l => (l ++ [(ERROR, m)])%list)).
Definition log_exception (m : LogMsg) : M World unit :=
  modify (set_log (fun l => (l ++ [(ERROR, m)])%list)).

(** [os.environ[name]]. *)
Definition os_environ (name : string) : M World string :=
  fun w => match environ w !! name with
           | Some v => (Ret v, w)
           | None => (Raise (KeyError name), w)
           end.

(** ** The database tables

    Modelled from the spec: the table operations of [easyauth.models]
    ([get], [filter], [all], [count], [create], [delete]) live outside
    [server.py]; the token table is "durable, keyed by token_id" with
    create / get / delete / list_all / count. *)
Definition Users_get (name : string) : M World (option Users) :=
  fun w => (Ret (List.find (fun u => String.eqb (username u) name) (Users_rows w)), w).

Definition Users_filter_email (mail : string) : M World (list Users) :=
  fun w => (Ret (List.filter (fun u => String.eqb (email u) mail) (Users_rows w)), w).

Definition OauthConfig_filter_provider (name : string) : M World (list OauthConfig) :=
  fun w => (Ret (List.filter (fun c => String.eqb (provider c) name)
                   (OauthConfig_rows w)), w).

Definition Tokens_get (id : string) : M World (option Tokens) :=
  fun w => (Ret (Tokens_rows w !! id), w).

Definition Tokens_all : M World (list (string * Tokens)) :=
  fun w => (Ret (map_to_list (Tokens_rows w)), w).

Definition Tokens_count : M World nat :=
  fun w => (Ret (size (Tokens_rows w)), w).

Definition Tokens_create (id : string) (row : Tokens) : M World unit :=
  fun w => match Tokens_rows w !! id with
           | Some _ => (Raise (IntegrityError id), w)
           | None => (Ret tt, set_Tokens_rows (insert id row) w)
           end.

(** [token.delete()] on the row with primary key [id]. *)
Definition Tokens_delete (id : string) : M World unit :=
  modify (set_Tokens_rows (delete id)).

(** ** Token bookkeeping *)

Section TokenService.

(** The clock and the UUID generator are oracles: [now_at n] is what the
    [n]-th reading of the clock returns, [uuid4_at n] the [n]-th UUID. *)
Variable now_at : nat -> Z.
Variable uuid4_at : nat -> string.

Definition datetime_now : M World Z :=
  fun w => (Ret (now_at (clock_reads w)), set_clock_reads S w).

Definition uuid4 : M World string :=
  fun w => (Ret (uuid4_at (uuid_draws w)), set_uuid_draws S w).

(** [jwt.generate_jwt(claims, key, algorithm, lifetime)] of the library
    python_jwt: the signer is handed a lifetime, not a deadline.  It reads
    the clock itself ([datetime.utcnow()]) and, [if lifetime:], stamps
    [exp = timegm((now + lifetime).utctimetuple())], the whole seconds of
    that sum (the microseconds are dropped); a zero lifetime is falsy and
    leaves the token without [exp].  The server's local time is taken to be
    UTC, so that [utcnow()] and the [datetime.now()] of [issue_token] read
    the same clock; the [iat], [nbf] and random [jti] claims that the signer
    adds as well are not kept in [JWT]. *)
Definition generate_jwt (c : payload) (key : JWK) (algorithm : string)
    (lifetime : Z) : M World JWT :=
  now <- datetime_now ;;
  let exp_ := if bool_decide (lifetime = 0) then None
              else Some ((now + lifetime) / 1000000) in
  ret {| claims := c; exp := exp_; alg := algorithm; signed_by := key |}.

(** [permissions["users"][0]]. *)
Definition first_user (perms : permissions_dict) : outcome string :=
  match perms !! "users" with
  | None => Raise (KeyError "users")
  | Some [] => Raise IndexError
  | Some (u :: _) => Ret u
  end.

(** [is_valid_token]: [await Tokens.get(token_id=token_id) is not None]. *)
Definition is_valid_token (id : string) : M World bool :=
  tok <- Tokens_get id ;;
  ret (match tok with Some _ => true | None => false end).

(** [revoke_token]: delete the row when there is one, then log. *)
Definition revoke_token (id : string) : M World unit :=
  tok <- Tokens_get id ;;
  (match tok with
   | Some _ => Tokens_delete id
   | None => ret tt
   end) ;;;
  log_warning (RevokingToken tok).

(** The list comprehension of [token_cleanup]: the clock is read once per
    row, and a row is deleted when that reading is strictly after its
    stored expiration. *)
Fixpoint token_cleanup_loop (all_tokens : list (string * Tokens)) : M World unit :=
  match all_tokens with
  | [] => ret tt
  | (id, tok) :: rest =>
      now <- datetime_now ;;
      (if now >? fromisoformat (expiration tok)
       then Tokens_delete id else ret tt) ;;;
      token_cleanup_loop rest
  end.

(** [token_cleanup]: the number it reports is the length of the list read
    at the start minus the count read after the deletions. *)
Definition token_cleanup : M World string :=
  all_tokens <- Tokens_all ;;
  token_cleanup_loop all_tokens ;;;
  token_count <- Tokens_count ;;
  let removed_count := Z.of_nat (length all_tokens) - Z.of_nat token_count in
  log_warning (TokenCleanupCleared removed_count) ;;;
  ret ("finished cleaning " ++ pretty removed_count ++ " expired tokens").

(** [issue_token], statement by statement: draw the id, build the payload
    from the environment, compute the deadline of the row, evaluate the
    arguments of [Tokens.create] from left to right (the user name, then a
    second reading of the clock for [issued]), create the row, sign. *)
Definition issue_token (perms : permissions_dict) (minutes hours days : Z)
    : M World JWT :=
  id <- uuid4 ;;
  issuer <- os_environ "ISSUER" ;;
  subject <- os_environ "SUBJECT" ;;
  audience <- os_environ "AUDIENCE" ;;
  let c := {| iss := issuer; sub := subject; aud := audience;
              token_id := id; permissions := perms |} in
  now <- datetime_now ;;
  let expiration_ := now + timedelta minutes hours days in
  user <- lift (first_user perms) ;;
  issued_ <- datetime_now ;;
  Tokens_create id {| tok_username := user; issued := isoformat issued_;
                      expiration := isoformat expiration_; token := perms |} ;;;
  key <- (fun w => (Ret (_privkey w), w)) ;;
  generate_jwt c key "RS256" (timedelta minutes hours days).

End TokenService.

(** ** Password validation *)

Section PasswordValidation.

(** [bcrypt.checkpw(password, hashed)] on the encoded bytes: the library
    answers [True] / [False] or raises (a [ValueError] for a hash it
    cannot parse). *)
Variable checkpw : string -> string -> outcome bool.

(** [str.encode()]; texts are kept as byte strings throughout. *)
Definition encode (s : string) : string := s.

Definition is_password_valid (encoded input_password : string) : M World bool :=
  let has_and_salt := encode encoded in
  lift (checkpw (encode input_password) has_and_salt).

(** The inner [try] of [validate_user_pw] with its [except ValueError]. *)
Definition validate_user_pw_inner (user : Users) (pw : string)
    : M World (flow (option Users)) :=
  try_except
    (valid <- is_password_valid (password user) pw ;;
     if negb valid then ret (Return None) else ret (Return (Some user)))
    is_ValueError
    (fun e => log_exception (ErrorValidatingUserPw e) ;;; ret Next).

(** The outer [try] with its [except Exception]: after the inner [try]
    comes [return user]. *)
Definition validate_user_pw_outer (user : Users) (pw : string)
    : M World (flow (option Users)) :=
  try_except
    (r <- validate_user_pw_inner user pw ;;
     match r with
     | Return v => ret (Return v)
     | Next => ret (Return (Some user))
     end)
    is_Exception
    (fun e => log_error (AuthFailedInvalidCredentials (username user)) ;;;
              ret Next).

(** [validate_user_pw]: look the user up; a service account raises;
    otherwise run the two [try] blocks and end with [return None]. *)
Definition validate_user_pw (name pw : string) : M World (option Users) :=
  user <- Users_get name ;;
  match user with
  | Some user =>
      if String.eqb (account_type user) "service"
      then raise (HTTPException 401 (Detail "unable to login with service accounts"))
      else
        r <- validate_user_pw_outer user pw ;;
        match r with
        | Return v => ret v
        | Next => ret None
        end
  | None => ret None
  end.

End PasswordValidation.

(** ** Permission resolution *)

(** The values that meet in the membership tests of
    [get_user_permissions]: the lists hold names ([str]), the probes are
    model rows.  Python's [==] between a row and a [str] is [False]. *)
Inductive pyobj : Type :=
| PyStr (s : string)
| PyActions (a : Actions)
| PyRoles (r : Roles)
| PyGroups (g : Groups).

Definition py_eq (x y : pyobj) : bool :=
  match x, y with
  | PyStr s, PyStr t => String.eqb s t
  | PyActions a, PyActions b => bool_decide (a = b)
  | PyRoles a, PyRoles b => bool_decide (a = b)
  | PyGroups a, PyGroups b => bool_decide (a = b)
  | _, _ => false
  end.

(** [probe in names] for a list of names. *)
Definition py_in (probe : pyobj) (names : list string) : bool :=
  existsb (fun n => py_eq (PyStr n) probe) names.

(** [if key not in permissions: permissions[key] = []]. *)
Definition ensure_key (key : string) (d : permissions_dict) : permissions_dict :=
  match d !! key with
  | Some _ => d
  | None => <[key := []]> d
  end.

(** [permissions[key].append(name)]. *)
Definition append_name (key name : string) (d : permissions_dict) : permissions_dict :=
  alter (fun l => (l ++ [name])%list) key d.

(** [if probe not in permissions[key]: permissions[key].append(name)],
    after the key was ensured. *)
Definition add_unless_in (key : string) (probe : pyobj) (name : string)
    (d : permissions_dict) : permissions_dict :=
  let d := ensure_key key d in
  if py_in probe (default [] (d !! key)) then d else append_name key name d.

Definition visit_action (d : permissions_dict) (a : Actions) : permissions_dict :=
  add_unless_in "actions" (PyActions a) (action a) d.

Definition visit_role (d : permissions_dict) (r : Roles) : permissions_dict :=
  add_unless_in "roles" (PyRoles r) (role r)
    (fold_left visit_action (actions r) d).

Definition visit_group (d : permissions_dict) (g : Groups) : permissions_dict :=
  add_unless_in "groups" (PyGroups g) (group_name g)
    (fold_left visit_role (roles g) d).

(** [get_user_permissions]: the three nested loops, then
    [permissions["users"] = [user.username]]. *)
Definition get_user_permissions (user : Users) : permissions_dict :=
  <["users" := [username user]]> (fold_left visit_group (groups user) ∅).

(** ** The permission gate of a wrapped endpoint *)

(** [parse_permissions]: a dimension is set when its list is given and not
    empty; with no dimension set the router default applies, or else the
    server default. *)
Definition set_if_truthy (key : string) (values : option (list string))
    (d : permissions_dict) : permissions_dict :=
  match values with
  | Some (v :: vs) => <[key := v :: vs]> d
  | _ => d
  end.

Definition parse_permissions (DEFAULT_PERMISSION : permissions_dict)
    (users groups roles actions : option (list string))
    (default_permissions : option permissions_dict) : permissions_dict :=
  let p := set_if_truthy "actions" actions
             (set_if_truthy "roles" roles
                (set_if_truthy "groups" groups
                   (set_if_truthy "users" users ∅))) in
  if bool_decide (p = ∅) then
    match default_permissions with
    | Some d => if bool_decide (d = ∅) then DEFAULT_PERMISSION else d
    | None => DEFAULT_PERMISSION
    end
  else p.

(** [for value in values: if value in held: allowed = True; break]. *)
Fixpoint scan_values (values held : list string) (allowed : bool) : bool :=
  match values with
  | [] => allowed
  | v :: rest =>
      if bool_decide (v ∈ held) then true else scan_values rest held allowed
  end.

(** [for auth_type, values in permissions.items(): ...] over the token's
    permission dict [granted]; a dimension the token lacks is logged and
    skipped. *)
Fixpoint check_items (items : list (string * list string))
    (granted : permissions_dict) (allowed : bool) : M World bool :=
  match items with
  | [] => ret allowed
  | (auth_type, values) :: rest =>
      match granted !! auth_type with
      | None =>
          log_warning (IsRequired auth_type) ;;;
          check_items rest granted allowed
      | Some held =>
          check_items rest granted (scan_values values held allowed)
      end
  end.

Inductive Page : Type := Page403.

(** What the wrapper answers once the token is decoded and known: a
    response of its own, or the result of calling the wrapped endpoint. *)
Inductive Response : Type :=
| HTMLResponse (body : Page) (status_code : Z)
| CallEndpoint.

(** [mock_function] from [allowed = False] on. *)
Definition mock_function_gate (response_class_is_HTMLResponse : bool)
    (required : permissions_dict) (tok : payload) : M World Response :=
  allowed <- check_items (map_to_list required) (permissions tok) false ;;
  if negb allowed then
    if response_class_is_HTMLResponse
    then ret (HTMLResponse Page403 403)
    else raise (HTTPException 403 (PermissionsRequired required))
  else ret CallEndpoint.

(** ** Google federation *)

(** The claims of a verified Google ID token that the server reads.  A
    field is [None] when the claim is absent; [email_verified] is the
    boolean of the OpenID Connect claim. *)
Record idinfo := {
  id_email : option string;
  id_email_verified : option bool;
  id_given_name : option string;
  id_family_name : option string }.

Record Request := {
  headers : gmap string string;
  body : string }.

(** The dict handed to [register_user]. *)
Record registration := {
  reg_username : string;
  reg_email_address : string;
  reg_full_name : string;
  reg_email : string;
  reg_password : string;
  reg_repeat_password : string;
  reg_groups : list string }.

(** What the federation entry point returns: the text of [register_user]
    when an activation is pending, or the issued token. *)
Inductive federated : Type :=
| Pending (result : string)
| Issued (t : JWT).

(** [needle in hay] on texts. *)
Fixpoint contains (needle hay : string) : bool :=
  String.prefix needle hay ||
  match hay with
  | EmptyString => false
  | String _ rest => contains needle rest
  end.

(** [d[key]] on the claims. *)
Definition claim {A} (key : string) (v : option A) : outcome A :=
  match v with
  | Some a => Ret a
  | None => Raise (KeyError key)
  end.

(** [jsonable_encoder(body_bytes)]: the posted bytes as text. *)
Definition jsonable_encoder (body_bytes : string) : string := body_bytes.

(** [if not auth_code: ...]: a code passed by the caller is used as it is;
    otherwise the request must carry the header [X-Google-OAuth2-Type:
    client] and its body is the code. *)
Definition posted_code (request : option Request) (auth_code : option string)
    : outcome string :=
  match auth_code with
  | Some (String a rest) => Ret (String a rest)
  | _ =>
      match request with
      | None => Raise (AttributeError "headers")
      | Some req =>
          if bool_decide (headers req !! "X-Google-OAuth2-Type" = Some "client")
          then Ret (jsonable_encoder (body req))
          else Raise GoogleOauthHeaderMalformed
      end
  end.

Section Federation.

Variable now_at : nat -> Z.
Variable uuid4_at : nat -> string.

(** [google.oauth2.id_token.verify_oauth2_token(token, request, audience)]:
    the provider's verification, which raises on a token it rejects. *)
Variable verify_oauth2_token : string -> string -> outcome idinfo.

(** [self.register_user], attached to the server outside [server.py]. *)
Variable register_user : registration -> M World string.

(** The [try] block: verify, then require a truthy [email] and
    [email_verified]; every exception is logged and replaced by the
    generic error. *)
Definition validated_email (auth_code : string) (oauth_config : OauthConfig)
    : M World (idinfo * string) :=
  try_except
    (info <- lift (verify_oauth2_token auth_code (client_id oauth_config)) ;;
     mail <- lift (claim "email" (id_email info)) ;;
     verified <- (if bool_decide (mail = "") then ret false
                  else lift (claim "email_verified" (id_email_verified info))) ;;
     if verified then ret (info, mail)
     else raise (HTTPException 400 (Detail "Unable to validate social login")))
    is_Exception
    (fun e =>
       log_exception (ErrorValidatingSocialLogin e) ;;;
       raise (HTTPException 400 (Detail "Unable to validate social login"))).

(** [user[0]]. *)
Definition first_row (rows : list Users) : outcome Users :=
  match rows with
  | u :: _ => Ret u
  | [] => Raise IndexError
  end.

(** [generate_google_oauth_token]: provider configuration, code, checked
    claims, then the existing user or a newly registered one, and a token
    for that user's permissions. *)
Definition generate_google_oauth_token (request : option Request)
    (auth_code : option string) : M World federated :=
  google_oauth <- OauthConfig_filter_provider "google" ;;
  match google_oauth with
  | [] => raise GoogleOauthNotEnabledOrConfigured
  | oauth_config :: _ =>
      code <- lift (posted_code request auth_code) ;;
      checked <- validated_email code oauth_config ;;
      let '(info, mail) := checked in
      user <- Users_filter_email mail ;;
      match user with
      | [] =>
          given <- lift (claim "given_name" (id_given_name info)) ;;
          family <- lift (claim "family_name" (id_family_name info)) ;;
          result <- register_user
                      {| reg_username := mail;
                         reg_email_address := mail;
                         reg_full_name := given ++ " " ++ family;
                         reg_email := mail;
                         reg_password := "";
                         reg_repeat_password := "";
                         reg_groups := group_name <$> default_groups oauth_config |} ;;
          if contains "Activation email sent to" result then ret (Pending result)
          else
            user <- Users_filter_email mail ;;
            u <- lift (first_row user) ;;
            t <- issue_token now_at uuid4_at (get_user_permissions u) 60 0 0 ;;
            ret (Issued t)
      | u :: _ =>
          t <- issue_token now_at uuid4_at (get_user_permissions u) 60 0 0 ;;
          ret (Issued t)
      end
  end.

End Federation.

(** ** Splitting texts *)

(** [s.split(sep)] for a separator that is not empty: [skip] counts the
    characters of a separator still to pass over, [piece] is the part read
    since the last separator. *)
Fixpoint split_go (sep : string) (skip : nat) (piece : string) (s : string)
    : list string :=
  match s with
  | EmptyString => [piece]
  | String c rest =>
      match skip with
      | S n => split_go sep n piece rest
      | O =>
          if String.prefix sep s
          then piece :: split_go sep (String.length sep - 1) EmptyString rest
          else split_go sep 0 (piece ++ String c EmptyString) rest
      end
  end.

Definition split (sep s : string) : list string := split_go sep 0 EmptyString s.

(** ** Key bootstrap *)

(** A file of the key directory: its text and whether the process may read
    or write it.  A file whose bytes are not text in the encoding of the
    process cannot be read either: it is a file with [readable := false]. *)
Record File := {
  content : string;
  readable : bool;
  writable : bool }.

(** The host at start-up: environment, directories, files, the key slot of
    the server ([self._privkey]) and the number of random draws so far.
    Directories carry no permissions: the process may create entries in
    every directory that exists. *)
Record Host := {
  host_environ : gmap string string;
  dirs : gset string;
  files : gmap string File;
  host_privkey : option JWK;
  random_draws : nat }.

Definition set_dirs (f : gset string -> gset string) (h : Host) : Host :=
  {| host_environ := host_environ h; dirs := f (dirs h); files := files h;
     host_privkey := host_privkey h; random_draws := random_draws h |}.

Definition set_files (f : gmap string File -> gmap string File) (h : Host) : Host :=
  {| host_environ := host_environ h; dirs := dirs h; files := f (files h);
     host_privkey := host_privkey h; random_draws := random_draws h |}.

Definition set_host_privkey (k : JWK) (h : Host) : Host :=
  {| host_environ := host_environ h; dirs := dirs h; files := files h;
     host_privkey := Some k; random_draws := random_draws h |}.

Definition set_random_draws (f : nat -> nat) (h : Host) : Host :=
  {| host_environ := host_environ h; dirs := dirs h; files := files h;
     host_privkey := host_privkey h; random_draws := f (random_draws h) |}.

(** Paths are compared as texts.  That is the file system's own view for
    a plain path, whose components are names ([plain_path] below); a path
    with an empty component, ["."] or [".."] has other spellings, and the
    statements about [key_setup] that depend on which entries exist are
    made for plain paths.

    The text before the last ["/"] of [path]: the directory that holds the
    entry.  It is empty when [path] has no ["/"] (the entry lies in the
    working directory) or only a leading one (it lies in the root). *)
Fixpoint dirname (path : string) : string :=
  match path with
  | EmptyString => EmptyString
  | String c rest =>
      if contains "/" rest then String c (dirname rest) else EmptyString
  end.

(** The directories above [path]: its prefixes that end just before a
    ["/"], the shortest first. *)
Fixpoint ancestors_go (before rest : string) : list string :=
  match rest with
  | EmptyString => []
  | String c rest' =>
      ((if Ascii.eqb c "/" && negb (String.eqb before "") then [before] else [])
       ++ ancestors_go (before ++ String c EmptyString) rest')%list
  end.

Definition ancestors (path : string) : list string := ancestors_go "" path.



(** Whether the directory that is to hold a new entry [path] is there: the
    working directory and the root always are; a regular file in the place
    of a directory above [path] gives [NotADirectoryError], a directory
    that is missing [FileNotFoundError]. *)
Definition parent_directory (path : string) (h : Host) : outcome unit :=
  if bool_decide (dirname path = "") || bool_decide (dirname path ∈ dirs h)
  then Ret tt
  else if existsb (fun a => bool_decide (is_Some (files h !! a))) (ancestors path)
       then Raise (NotADirectoryError path)
       else Raise (FileNotFoundError path).

(** [os.path.exists]. *)
Definition os_path_exists (path : string) : M Host bool :=
  fun h => (Ret (bool_decide (path ∈ dirs h) || bool_decide (is_Some (files h !! path))), h).

(** [os.makedirs]: the empty path and an existing path are errors, and so
    is a regular file in the place of a directory above [path]; otherwise
    the directory is created together with those above it. *)
Definition os_makedirs (path : string) : M Host unit :=
  fun h =>
    if bool_decide (path = "") then (Raise (FileNotFoundError path), h)
    else if bool_decide (path ∈ dirs h) || bool_decide (is_Some (files h !! path))
         then (Raise (FileExistsError path), h)
         else if existsb (fun a => bool_decide (is_Some (files h !! a)))
                   (ancestors path)
              then (Raise (NotADirectoryError path), h)
              else (Ret tt,
                    set_dirs (fun d => {[path]} ∪ list_to_set (ancestors path) ∪ d) h).

(** [with open(path, "w") as f: f.write(text)]: truncates a writable file;
    creates the file when there is none and the directory that is to hold
    it exists. *)
Definition write_file (path text : string) : M Host unit :=
  fun h =>
    if bool_decide (path ∈ dirs h) then (Raise (IsADirectoryError path), h)
    else match files h !! path with
         | None =>
             match parent_directory path h with
             | Ret _ =>
                 (Ret tt, set_files (insert path {| content := text; readable := true;
                                                     writable := true |}) h)
             | Raise e => (Raise e, h)
             end
         | Some f =>
             if writable f
             then (Ret tt, set_files (insert path {| content := text;
                                                      readable := readable f;
                                                      writable := true |}) h)
             else (Raise (PermissionError path), h)
         end.

(** [open(path, "r")], giving the text of the file. *)
Definition open_read (path : string) : M Host string :=
  fun h =>
    if bool_decide (path ∈ dirs h) then (Raise (IsADirectoryError path), h)
    else match files h !! path with
         | None =>
             match parent_directory path h with
             | Ret _ => (Raise (FileNotFoundError path), h)
             | Raise e => (Raise e, h)
             end
         | Some f => if readable f then (Ret (content f), h)
                     else (Raise (PermissionError path), h)
         end.

(** [k.readline()] on a file opened in text mode (universal newlines): the
    text up to the first line end, which is a line feed, a carriage return,
    or the two in a row, and which is handed over as one line feed. *)
Fixpoint readline (text : string) : string :=
  match text with
  | EmptyString => EmptyString
  | String c rest =>
      if Ascii.eqb c "010"%char || Ascii.eqb c "013"%char
      then String "010"%char EmptyString
      else String c (readline rest)
  end.

Definition ascii_lowercase : list ascii :=
  list_ascii_of_string "abcdefghijklmnopqrstuvwxyz".

Section KeyManager.

(** [random_at n] is the [n]-th draw of the random source;
    [rsa_at n] the secret of the key generated at draw [n]. *)
Variable random_at : nat -> nat.
Variable rsa_at : nat -> Z.

(** [jwk.JWK.from_json], [export_private], [export_public]. *)
Variable from_json : string -> outcome JWK.
Variable export_private : JWK -> string.
Variable export_public : JWK -> string.

(** [random.choice(letters)]. *)
Definition random_choice (letters : list ascii) : M Host ascii :=
  fun h => (Ret (nth (random_at (random_draws h) mod length letters)%nat letters "a"%char),
            set_random_draws S h).

(** ["".join(random.choice(letters) for i in range(size))]. *)
Fixpoint generate_random_string (size : nat) : M Host string :=
  match size with
  | O => ret EmptyString
  | S n =>
      c <- random_choice ascii_lowercase ;;
      rest <- generate_random_string n ;;
      ret (String c rest)
  end.

(** [jwk.JWK.generate(kid=..., kty="RSA", size=2048)]. *)
Definition JWK_generate (key_id : string) : M Host JWK :=
  fun h => (Ret {| kid := key_id; secret := rsa_at (random_draws h) |},
            set_random_draws S h).

Definition getenv (name default_ : string) : M Host string :=
  fun h => (Ret (default default_ (host_environ h !! name)), h).

Definition host_env (name : string) : M Host string :=
  fun h => match host_environ h !! name with
           | Some v => (Ret v, h)
           | None => (Raise (KeyError name), h)
           end.

(** The opening of [key_setup]: [KEY_NAME] must be set, the key
    directory is created when missing, the path of the key is composed and
    an empty marker file is written at that path when nothing is there. *)
Definition key_file_path : M Host string :=
  h <- get ;;
  (if bool_decide (is_Some (host_environ h !! "KEY_NAME")) then ret tt
   else raise (AssertionError "missing KEY_NAME env variable")) ;;;
  key_path <- getenv "KEY_PATH" "" ;;
  there <- os_path_exists key_path ;;
  (if negb there then os_makedirs key_path else ret tt) ;;;
  key_name <- host_env "KEY_NAME" ;;
  let key_path := if bool_decide (key_path = "") then key_name
                  else key_path ++ "/" ++ key_name in
  there <- os_path_exists key_path ;;
  (if negb there then write_file key_path "" else ret tt) ;;;
  ret key_path.

(** The first [try]: load the private key; on any exception generate a
    key and write it over the private-key file. *)
Definition load_or_create_key (key_path : string) : M Host unit :=
  try_except
    (text <- open_read (key_path ++ ".key") ;;
     k <- lift (from_json (readline text)) ;;
     modify (set_host_privkey k))
    is_Exception
    (fun _ =>
       key_id <- generate_random_string 56 ;;
       k <- JWK_generate key_id ;;
       modify (set_host_privkey k) ;;;
       write_file (key_path ++ ".key") (export_private k)).

(** The second [try]: open the public-key file; on any exception write
    the public half of the current key. *)
Definition ensure_public_key (key_path : string) : M Host unit :=
  try_except
    (_ <- open_read (key_path ++ ".pub") ;; ret tt)
    is_Exception
    (fun _ =>
       h <- get ;;
       match host_privkey h with
       | Some k => write_file (key_path ++ ".pub") (export_public k)
       | None => raise (AttributeError "_privkey")
       end).

(** [key_setup]: the three parts in sequence. *)
Definition key_setup : M Host unit :=
  key_path <- key_file_path ;;
  load_or_create_key key_path ;;;
  ensure_public_key key_path.

End KeyManager.


(** ** Start-up checks of the constructor *)

(** [assert name in os.environ, f"missing {name} env variable"]. *)
Definition assert_in_environ (name : string) : M World unit :=
  fun w => if bool_decide (is_Some (environ w !! name)) then (Ret tt, w)
           else (Raise (AssertionError ("missing " ++ name ++ " env variable")), w).

(** The three checks of [__init__], in their order. *)
Definition assert_environment : M World unit :=
  assert_in_environ "ISSUER" ;;;
  assert_in_environ "SUBJECT" ;;;
  assert_in_environ "AUDIENCE".

(** ** Identity providers *)

Definition OauthConfig_all : M World (list OauthConfig) :=
  fun w => (Ret (OauthConfig_rows w), w).

(** [get_google_oauth_client_id]: the client id of the first row for
    ["google"], or the empty text. *)
Definition get_google_oauth_client_id : M World string :=
  google_oauth <- OauthConfig_filter_provider "google" ;;
  ret (match google_oauth with
       | c :: _ => client_id c
       | [] => ""
       end).

(** The dict comprehension of [get_identity_providers]: rows are entered
    in order, a later row replaces an earlier one of the same provider, and
    the provider ["easyauth"] is left out. *)
Definition providers_dict (providers : list OauthConfig) : gmap string string :=
  fold_left
    (fun d idp => if String.eqb (provider idp) "easyauth" then d
                  else <[provider idp := client_id idp]> d)
    providers ∅.

Definition get_identity_providers : M World (gmap string string) :=
  providers <- OauthConfig_all ;;
  let providers := List.filter enabled providers in
  ret (providers_dict providers).

(** ** The wrapper of an endpoint, from its first statement *)

(** What [mock_function] answers: the login page with status and cookies,
    or what the permission gate answers. *)
Inductive Reply : Type :=
| LoginChallenge (status_code : Z) (set_cookie : list (string * string))
| Answer (r : Response).

(** The world together with the two texts that [mock_function] logs
    itself, as formatted. *)
Definition Wrapped : Type := World * list (LogLevel * string).

Definition in_world {A} (c : M World A) : M Wrapped A :=
  fun s => match c (fst s) with
           | (r, w') => (r, (w', snd s))
           end.

Definition log_error_text (text : string) : M Wrapped unit :=
  fun s => (Ret tt, (fst s, (snd s ++ [(ERROR, text)])%list)).

(** [response_class is HTMLResponse or "text/html" in
    request.headers["accept"]]: the header is only read for an endpoint
    whose response class is not [HTMLResponse]. *)
Definition wants_html (response_class_is_HTMLResponse : bool) (request : Request)
    : outcome bool :=
  if response_class_is_HTMLResponse then Ret true
  else match headers request !! "accept" with
       | Some a => Ret (contains "text/html" a)
       | None => Raise (KeyError "accept")
       end.

(** The block that [mock_function] repeats three times: for an HTML client
    return the login page with status 401, the cookie [token=INVALID] and
    the cookie [ref] holding the requested path. *)
Definition login_challenge (response_class_is_HTMLResponse : bool)
    (request : Request) (path : string) : M Wrapped (flow Reply) :=
  h <- lift (wants_html response_class_is_HTMLResponse request) ;;
  if h then ret (Return (LoginChallenge 401 [("token", "INVALID"); ("ref", path)]))
  else ret Next.

(** [token['permissions']['user'][0]], formatted into the log text for a
    token without a row. *)
Definition unknown_token_user (c : payload) : outcome string :=
  match permissions c !! "user" with
  | None => Raise (KeyError "user")
  | Some [] => Raise IndexError
  | Some (u :: _) => Ret u
  end.

Section Wrapper.

Variable now_at : nat -> Z.

(** [jwt.verify_jwt(token, key, ["RS256"])[1]] of the library python_jwt,
    at the time it reads from the clock: the claims of the token, or an
    exception for a text that is no token, a signature that does not
    verify or an expired token.  The claims are those of a token made by
    [issue_token]. *)
Variable verify_jwt : string -> JWK -> Z -> outcome payload.

Definition decode_token (tok : string) : M World payload :=
  key <- (fun w => (Ret (_privkey w), w)) ;;
  now <- datetime_now now_at ;;
  lift (verify_jwt tok key now).

Definition mock_function (response_class_is_HTMLResponse : bool)
    (required : permissions_dict) (request : Request) (path tok : string)
    : M Wrapped Reply :=
  early <- (if String.eqb tok "NO_TOKEN"
            then login_challenge response_class_is_HTMLResponse request path
            else ret Next) ;;
  match early with
  | Return reply => ret reply
  | Next =>
      decoded <- try_except
                   (c <- in_world (decode_token tok) ;; ret (inr c))
                   is_Exception
                   (fun _ =>
                      log_error_text "error decoding token" ;;;
                      r <- login_challenge response_class_is_HTMLResponse request path ;;
                      match r with
                      | Return reply => ret (inl reply)
                      | Next => raise (HTTPException 401
                                         (Detail "not authorized, invalid or expired"))
                      end) ;;
      match decoded with
      | inl reply => ret reply
      | inr c =>
          row <- in_world (Tokens_get (token_id c)) ;;
          match row with
          | None =>
              user <- lift (unknown_token_user c) ;;
              log_error_text ("token for user " ++ user ++ " used is unknown / revoked") ;;;
              r <- login_challenge response_class_is_HTMLResponse request path ;;
              match r with
              | Return reply => ret reply
              | Next => raise (HTTPException 401
                                 (Detail "not authorized, invalid or expired"))
              end
          | Some _ =>
              r <- in_world (mock_function_gate response_class_is_HTMLResponse required c) ;;
              ret (Answer r)
          end
      end
  end.

End Wrapper.

(** ** The cookie middleware *)

(** How often a character occurs in a text. *)
Fixpoint count_char (c : ascii) (s : string) : nat :=
  match s with
  | EmptyString => 0
  | String d rest => ((if Ascii.eqb c d then 1 else 0) + count_char c rest)%nat
  end.

(** [key, value = parts]: unpacking needs exactly two parts. *)
Definition unpack_pair (parts : list string) : outcome (string * string) :=
  match parts with
  | [k; v] => Ret (k, v)
  | [] | [_] => Raise (ValueError "not enough values to unpack")
  | _ => Raise (ValueError "too many values to unpack")
  end.

(** [for cookie in cookies[0].split("; "): key, value = cookie.split("=");
    if key == "token": token_in_cookie = value]. *)
Fixpoint scan_cookies (cookies : list string) (token_in_cookie : option string)
    : outcome (option string) :=
  match cookies with
  | [] => Ret token_in_cookie
  | cookie :: rest =>
      match unpack_pair (split "=" cookie) with
      | Raise e => Raise e
      | Ret (key, value) =>
          scan_cookies rest
            (if String.eqb key "token" then Some value else token_in_cookie)
      end
  end.

(** [for i, header in enumerate(request_dict["headers"])]: the index of
    the last header whose name contains ["authorization"], and the token
    found in the headers whose name contains ["cookie"]; of a cookie header
    only the part before the first comma is read.  A header is given by the
    texts that [header[0].decode()] and [header[1].decode()] yield: the
    headers are those whose bytes are UTF-8, for which [.decode()] returns;
    bytes that are not make it raise [UnicodeDecodeError], a case that lies
    outside this function. *)
Fixpoint scan_headers (hs : list (string * string)) (i : nat)
    (token_in_cookie : option string) (auth_ind : option nat)
    : outcome (option string * option nat) :=
  match hs with
  | [] => Ret (token_in_cookie, auth_ind)
  | (name, value) :: rest =>
      let auth_ind := if contains "authorization" name then Some i else auth_ind in
      if contains "cookie" name
      then match scan_cookies (split "; " (hd EmptyString (split "," value)))
                   token_in_cookie with
           | Raise e => Raise e
           | Ret tok => scan_headers rest (S i) tok auth_ind
           end
      else scan_headers rest (S i) token_in_cookie auth_ind
  end.

(** What the middleware does to the request before it goes on.  The edits
    are returned in order rather than applied: [PopHeadersList] and
    [AppendHeadersList] act on [request.headers._list], [AppendScopeHeaders]
    on the list [request_dict["headers"]]; whether Starlette shares the two
    lists is not decided in [server.py]. *)
Inductive HeaderEdit : Type :=
| PopHeadersList (i : nat)
| AppendHeadersList (h : string * string)
| AppendScopeHeaders (h : string * string).

Inductive Dispatch : Type :=
| RedirectResponse (url : string)
| CallNext.

(** [detect_token_in_cookie]: [if auth_ind:] is false for no index and for
    index 0; a token is usable when it is not empty and not ["INVALID"]. *)
Definition detect_token_in_cookie (hs : list (string * string)) (path : string)
    : outcome (list HeaderEdit * Dispatch) :=
  match scan_headers hs 0 None None with
  | Raise e => Raise e
  | Ret (token_in_cookie, auth_ind) =>
      let tok := default EmptyString token_in_cookie in
      if negb (String.eqb tok "") && negb (String.eqb tok "INVALID")
      then
        let pops := match auth_ind with
                    | Some (S i) => [PopHeadersList (S i)]
                    | _ => []
                    end in
        let bearer := "bearer " ++ tok in
        if negb (String.eqb path "/login")
        then Ret ((pops ++ [AppendHeadersList ("authorization", bearer)])%list,
                  CallNext)
        else Ret (pops, RedirectResponse "/logout")
      else
        if negb (String.eqb path "/login")
        then Ret ([AppendScopeHeaders
                     ("authorization",
                      "bearer " ++ (if String.eqb tok "" then "NO_TOKEN" else tok))],
                  CallNext)
        else Ret ([], CallNext)
  end.

(** ** Concrete collaborators and worlds for the examples *)

(** A clock that advances by one microsecond at every reading, and a clock
    that stands still. *)
Definition ticking_clock (n : nat) : Z := 1000 + Z.of_nat n.
Definition frozen_clock (t : Z) (n : nat) : Z := t.

Definition numbered_uuid (n : nat) : string := "uuid-" ++ pretty n.

Definition action_A1 : Actions := {| action := "A1" |}.
Definition action_A2 : Actions := {| action := "A2" |}.
Definition role_R1 : Roles := {| role := "R1"; actions := [action_A1; action_A2] |}.
Definition role_R2 : Roles := {| role := "R2"; actions := [action_A2] |}.
Definition group_G1 : Groups := {| group_name := "G1"; roles := [role_R1] |}.
Definition group_G2 : Groups := {| group_name := "G2"; roles := [role_R2] |}.

Definition alice : Users :=
  {| username := "alice"; password := "$2b$wonderland"; account_type := "user";
     email := "alice@example.org"; groups := [group_G1; group_G2] |}.

Definition mallory : Users :=
  {| username := "mallory"; password := "not-a-bcrypt-hash"; account_type := "user";
     email := "mallory@example.org"; groups := [group_G1] |}.

Definition robot : Users :=
  {| username := "robot"; password := "$2b$beep"; account_type := "service";
     email := "robot@example.org"; groups := [] |}.

Definition google_config : OauthConfig :=
  {| provider := "google"; client_id := "client-1"; enabled := true;
     default_groups := [group_G2] |}.

Definition world0 : World :=
  {| environ := <["ISSUER" := "easyauth"]>
                  (<["SUBJECT" := "EasyAuthAuth"]> (<["AUDIENCE" := "EasyAuthApis"]> ∅));
     Users_rows := [alice; mallory; robot];
     Tokens_rows := ∅;
     OauthConfig_rows := [google_config];
     _privkey := {| kid := "kid-0"; secret := 7 |};
     clock_reads := 0; uuid_draws := 0; log := [] |}.

Definition token_row (user : string) (expires : Z) : Tokens :=
  {| tok_username := user; issued := isoformat 0; expiration := isoformat expires;
     token := {["users" := [user]]} |}.

(** Three tracked tokens, expiring at 5, 10 and 15. *)
Definition world3 : World :=
  set_Tokens_rows
    (fun _ => <["t5" := token_row "alice" 5]>
                (<["t10" := token_row "alice" 10]>
                   (<["t15" := token_row "mallory" 15]> ∅)))
    world0.

(** Two tracked tokens that both expire at 1000. *)
Definition world_tie : World :=
  set_Tokens_rows
    (fun _ => <["ta" := token_row "alice" 1000]>
                (<["tb" := token_row "mallory" 1000]> ∅))
    world0.

(** A password checker in the manner of bcrypt: a stored hash must begin
    with ["$2b$"], anything else is rejected with [ValueError]. *)
Definition prefix_checkpw (pw hashed : string) : outcome bool :=
  if String.prefix "$2b$" hashed
  then Ret (String.eqb hashed ("$2b$" ++ pw))
  else Raise (ValueError "Invalid salt").

(** A provider that accepts every code and reports an address that was
    not verified, and a registration that must not be reached. *)
Definition unverified_provider (code audience : string) : outcome idinfo :=
  Ret {| id_email := Some "eve@example.org"; id_email_verified := Some false;
         id_given_name := Some "Eve"; id_family_name := Some "Example" |}.

Definition closed_registration (r : registration) : M World string :=
  raise (HTTPException 400 (Detail "registration is closed")).

(** A key codec for the examples: a key file parses when its first line
    opens with a brace. *)
Definition brace_from_json (text : string) : outcome JWK :=
  if String.prefix "{" text
  then Ret {| kid := text; secret := 0 |}
  else Raise (ValueError "Expecting value").

Definition brace_export_private (k : JWK) : string :=
  "{private:" ++ kid k ++ "}".

Definition brace_export_public (k : JWK) : string :=
  "{public:" ++ kid k ++ "}".

(** A host that has booted before and whose private-key file was damaged
    since. *)
Definition damaged_host : Host :=
  {| host_environ := <["KEY_NAME" := "test_key"]> (<["KEY_PATH" := "keys"]> ∅);
     dirs := {["keys"]};
     files := <["keys/test_key" := {| content := ""; readable := true; writable := true |}]>
                (<["keys/test_key.key" :=
                     {| content := "%%% damaged %%%"; readable := true; writable := true |}]>
                   (<["keys/test_key.pub" :=
                        {| content := "{public:old}"; readable := true; writable := true |}]> ∅));
     host_privkey := None;
     random_draws := 0 |}.

(** A clock that reads 9, 10, 11, ... *)
Definition slow_clock (n : nat) : Z := 9 + Z.of_nat n.

(** A comparison that cannot take its arguments. *)
Definition broken_checkpw (pw hashed : string) : outcome bool :=
  Raise (TypeError "Unicode-objects must be encoded before checking").

(** A verifier that knows one token, issued for [alice] under the id
    ["t10"], and rejects every other text. *)
Definition alice_claims : payload :=
  {| iss := "easyauth"; sub := "EasyAuthAuth"; aud := "EasyAuthApis";
     token_id := "t10"; permissions := get_user_permissions alice |}.

Definition one_token_verify_jwt (tok : string) (key : JWK) (now : Z) : outcome payload :=
  if String.eqb tok "alice-token" then Ret alice_claims
  else Raise (ValueError "Invalid JWT").

Definition browser_request : Request :=
  {| headers := {["accept" := "text/html,application/xhtml+xml"]}; body := "" |}.

Definition api_request : Request :=
  {| headers := {["accept" := "application/json"]}; body := "" |}.

(** Providers for the federation examples: one that fails, one that
    vouches for [alice]'s address, one that vouches for a newcomer, and one
    that vouches for a newcomer without names. *)
Definition failing_provider (code audience : string) : outcome idinfo :=
  Raise (ValueError "Token used too late").


Definition newcomer_provider (code audience : string) : outcome idinfo :=
  Ret {| id_email := Some "nina@example.org"; id_email_verified := Some true;
         id_given_name := Some "Nina"; id_family_name := Some "New" |}.

Definition nameless_provider (code audience : string) : outcome idinfo :=
  Ret {| id_email := Some "nina@example.org"; id_email_verified := Some true;
         id_given_name := None; id_family_name := None |}.

(** A registration that answers with the activation notice and stores
    nothing. *)
Definition activation_registration (r : registration) : M World string :=
  ret ("Activation email sent to " ++ reg_email r).





Definition pathless_host : Host :=
  {| host_environ := {["KEY_NAME" := "test_key"]};
     dirs := ∅; files := ∅; host_privkey := None; random_draws := 0 |}.


Definition stray_name_host : Host :=
  {| host_environ := <["KEY_NAME" := "sub/test_key"]> (<["KEY_PATH" := "keys"]> ∅);
     dirs := ∅; files := ∅; host_privkey := None; random_draws := 0 |}.

(** A host that has booted before and whose private-key file holds a key,
    a carriage return and more text. *)
Definition return_host : Host :=
  {| host_environ := <["KEY_NAME" := "test_key"]> (<["KEY_PATH" := "keys"]> ∅);
     dirs := {["keys"]};
     files := <["keys/test_key" := {| content := ""; readable := true; writable := true |}]>
                (<["keys/test_key.key" :=
                     {| content := "{private:old}" ++ String "013" "not a key";
                        readable := true; writable := true |}]>
                   (<["keys/test_key.pub" :=
                        {| content := "{public:old}"; readable := true; writable := true |}]> ∅));
     host_privkey := None;
     random_draws := 0 |}.

(** A host that has booted before and whose files are in order. *)
Definition booted_host : Host :=
  {| host_environ := <["KEY_NAME" := "test_key"]> (<["KEY_PATH" := "keys"]> ∅);
     dirs := {["keys"]};
     files := <["keys/test_key" := {| content := ""; readable := true; writable := true |}]>
                (<["keys/test_key.key" :=
                     {| content := "{private:old}"; readable := true; writable := true |}]>
                   (<["keys/test_key.pub" :=
                        {| content := "{public:old}"; readable := true; writable := true |}]> ∅));
     host_privkey := None;
     random_draws := 0 |}.

(** ** Reasoning about the monad *)

Lemma bind_Ret {S A B} (c : M S A) (k : A -> M S B) s a s' :
  c s = (Ret a, s') -> bind c k s = k a s'.
Proof. intros H. unfold bind. by rewrite H. Qed.


Ltac run :=
  unfold bind, ret, raise, lift, get, modify, try_except; simpl.

(** ** Token bookkeeping: issuing and revoking *)

Section TokenServiceFacts.

Variable now_at : nat -> Z.
Variable uuid4_at : nat -> string.

Lemma first_user_missing (perms : permissions_dict) :
  perms !! "users" = None ∨ perms !! "users" = Some [] ->
  ∃ e, first_user perms = Raise e.
Proof.
  intros [H|H]; unfold first_user; rewrite H; eauto.
Qed.

(** C10: a permission dict without a ["users"] key, or with an empty
    ["users"] list, makes [issue_token] raise; the token table is left as
    it was and the signer is never reached (at most the first clock
    reading was taken). *)
Theorem issue_token_requires_users (perms : permissions_dict)
    (minutes hours days : Z) (w : World) :
  perms !! "users" = None ∨ perms !! "users" = Some [] ->
  ∃ e, fst (issue_token now_at uuid4_at perms minutes hours days w) = Raise e
       ∧ Tokens_rows (snd (issue_token now_at uuid4_at perms minutes hours days w))
         = Tokens_rows w
       ∧ (clock_reads (snd (issue_token now_at uuid4_at perms minutes hours days w))
          ≤ S (clock_reads w))%nat.
Proof.
  intros Hu. destruct (first_user_missing perms Hu) as [e He].
  unfold issue_token, uuid4, os_environ, datetime_now. run.
  destruct (environ w !! "ISSUER"); simpl; [|eexists; split_and!; eauto].
  destruct (environ w !! "SUBJECT"); simpl; [|eexists; split_and!; eauto].
  destruct (environ w !! "AUDIENCE"); simpl; [|eexists; split_and!; eauto].
  rewrite He. simpl. eexists; split_and!; eauto.
Qed.

(** C5 (as amended): after a successful [issue_token] the tracking row
    is stored under the token id that the signed token carries; the row
    expires, to the microsecond, at the first clock reading plus the
    lifetime; the token carries no [exp] when the lifetime is zero, and
    otherwise the whole seconds of the signer's own (third) reading plus
    the lifetime. *)
Theorem issue_token_row_and_token (perms : permissions_dict)
    (minutes hours days : Z) (w w' : World) (t : JWT) :
  issue_token now_at uuid4_at perms minutes hours days w = (Ret t, w') ->
  ∃ row, Tokens_rows w' !! token_id (claims t) = Some row
         ∧ token_id (claims t) = uuid4_at (uuid_draws w)
         ∧ fromisoformat (expiration row)
           = now_at (clock_reads w) + timedelta minutes hours days
         ∧ exp t = if bool_decide (timedelta minutes hours days = 0) then None
                   else Some ((now_at (S (S (clock_reads w)))
                               + timedelta minutes hours days) / 1000000).
Proof.
  unfold issue_token, uuid4, os_environ, datetime_now, generate_jwt, Tokens_create.
  run.
  destruct (environ w !! "ISSUER"); simpl; [|discriminate].
  destruct (environ w !! "SUBJECT"); simpl; [|discriminate].
  destruct (environ w !! "AUDIENCE"); simpl; [|discriminate].
  destruct (first_user perms) as [u|]; simpl; [|discriminate].
  destruct (Tokens_rows w !! uuid4_at (uuid_draws w)) eqn:Hfresh; simpl;
    [discriminate|].
  unfold datetime_now. simpl. intros [= <- <-]. simpl.
  eexists. split_and!; [apply lookup_insert_eq|done..].
Qed.

(** C7: [revoke_token] returns normally; afterwards [is_valid_token]
    answers [False] for that id; for an id without a row the table is
    unchanged; a second revocation returns normally and changes nothing. *)
Theorem revoke_token_then_inactive (id : string) (w : World) :
  let w1 := snd (revoke_token id w) in
  let w2 := snd (revoke_token id w1) in
  fst (revoke_token id w) = Ret tt
  ∧ fst (is_valid_token id w1) = Ret false
  ∧ Tokens_rows w1 = delete id (Tokens_rows w)
  ∧ (Tokens_rows w !! id = None -> Tokens_rows w1 = Tokens_rows w)
  ∧ fst (revoke_token id w1) = Ret tt
  ∧ Tokens_rows w2 = Tokens_rows w1.
Proof.
  assert (Hstep : ∀ v : World,
             fst (revoke_token id v) = Ret tt
             ∧ Tokens_rows (snd (revoke_token id v)) = delete id (Tokens_rows v)).
  { intros v. unfold revoke_token, Tokens_get, Tokens_delete, log_warning. run.
    destruct (Tokens_rows v !! id) eqn:Hid; simpl; split; auto.
    symmetry. by apply delete_id. }
  intros w1 w2. subst w1 w2.
  destruct (Hstep w) as [Hr1 Ht1].
  destruct (Hstep (snd (revoke_token id w))) as [Hr2 Ht2].
  split_and!; auto.
  - unfold is_valid_token, Tokens_get. run. rewrite Ht1.
    by rewrite lookup_delete_eq.
  - intros Hnone. rewrite Ht1. by apply delete_id.
  - rewrite Ht2, Ht1. apply delete_id. by rewrite lookup_delete_eq.
Qed.

End TokenServiceFacts.

(** ** Token bookkeeping: the expiry sweep *)

Section CleanupFacts.

Variable now_at : nat -> Z.

Lemma token_cleanup_loop_cons (id : string) (tok : Tokens)
    (rest : list (string * Tokens)) (w : World) :
  token_cleanup_loop now_at ((id, tok) :: rest) w
  = token_cleanup_loop now_at rest
      (if now_at (clock_reads w) >? fromisoformat (expiration tok)
       then set_Tokens_rows (delete id) (set_clock_reads S w)
       else set_clock_reads S w).
Proof.
  simpl. unfold datetime_now, Tokens_delete. run.
  by destruct (_ >? _).
Qed.

(** The loop always runs to its end.  Row by row: a row whose stored
    expiration is strictly before the reading taken for it is gone
    afterwards, and an id none of whose rows was found expired keeps what
    it had. *)
Lemma token_cleanup_loop_spec (l : list (string * Tokens)) :
  ∀ w : World, ∃ w' : World,
    token_cleanup_loop now_at l w = (Ret tt, w')
    ∧ clock_reads w' = (clock_reads w + length l)%nat
    ∧ (∀ id, Tokens_rows w' !! id = None
             ∨ Tokens_rows w' !! id = Tokens_rows w !! id)
    ∧ (∀ id i tok, l !! i = Some (id, tok) ->
                   fromisoformat (expiration tok) < now_at (clock_reads w + i)%nat ->
                   Tokens_rows w' !! id = None)
    ∧ (∀ id, (∀ i tok, l !! i = Some (id, tok) ->
                       ¬ fromisoformat (expiration tok) < now_at (clock_reads w + i)%nat) ->
             Tokens_rows w' !! id = Tokens_rows w !! id).
Proof.
  induction l as [|[id0 tok0] rest IH]; intros w.
  - exists w. simpl. unfold ret. split_and!; auto.
    intros id i tok Hi. by rewrite lookup_nil in Hi.
  - rewrite token_cleanup_loop_cons.
    set (w1 := if now_at (clock_reads w) >? fromisoformat (expiration tok0)
               then set_Tokens_rows (delete id0) (set_clock_reads S w)
               else set_clock_reads S w).
    assert (Hclk : clock_reads w1 = S (clock_reads w)).
    { subst w1. by destruct (_ >? _). }
    assert (Hrows : Tokens_rows w1
                    = if now_at (clock_reads w) >? fromisoformat (expiration tok0)
                      then delete id0 (Tokens_rows w) else Tokens_rows w).
    { subst w1. by destruct (_ >? _). }
    destruct (IH w1) as (w' & Hrun & Hreads & Hmono & Hgone & Hkept).
    exists w'. split_and!; auto.
    + rewrite Hreads, Hclk. simpl. lia.
    + intros id. destruct (Hmono id) as [H|H]; [by left|].
      rewrite H, Hrows. destruct (_ >? _); [|by right].
      destruct (decide (id0 = id)) as [->|Hne].
      * left. apply lookup_delete_eq.
      * right. by apply lookup_delete_ne.
    + intros id [|i] tok Hi Hexp.
      * simpl in Hi. injection Hi as -> ->.
        rewrite Nat.add_0_r in Hexp.
        destruct (Hmono id) as [H|H]; [done|].
        rewrite H, Hrows.
        assert ((now_at (clock_reads w) >? fromisoformat (expiration tok)) = true)
          as -> by lia.
        apply lookup_delete_eq.
      * simpl in Hi. apply (Hgone id i tok Hi).
        rewrite Hclk. by replace (S (clock_reads w) + i)%nat
                           with (clock_reads w + S i)%nat by lia.
    + intros id Hnone.
      rewrite Hkept.
      * rewrite Hrows.
        destruct (now_at (clock_reads w) >? fromisoformat (expiration tok0)) eqn:Hcmp;
          [|done].
        apply lookup_delete_ne. intros ->.
        apply (Hnone 0%nat tok0); [done|]. rewrite Nat.add_0_r. lia.
      * intros i tok Hi. rewrite Hclk.
        replace (S (clock_reads w) + i)%nat with (clock_reads w + S i)%nat by lia.
        by apply Hnone.
Qed.

(** With a clock that reads [now] at every row, the loop leaves exactly
    the rows that are not expired at [now]. *)
Lemma token_cleanup_loop_frozen (w : World) (now : Z) :
  (∀ i, (i < size (Tokens_rows w))%nat -> now_at (clock_reads w + i)%nat = now) ->
  ∃ w' : World,
    token_cleanup_loop now_at (map_to_list (Tokens_rows w)) w = (Ret tt, w')
    ∧ Tokens_rows w'
      = filter (λ row : string * Tokens, ¬ fromisoformat (expiration row.2) < now)
          (Tokens_rows w).
Proof.
  intros Hfrozen.
  destruct (token_cleanup_loop_spec (map_to_list (Tokens_rows w)) w)
    as (w' & Hrun & _ & Hmono & Hgone & Hkept).
  exists w'. split; [done|].
  assert (Hread : ∀ i id tok, map_to_list (Tokens_rows w) !! i = Some (id, tok) ->
                              now_at (clock_reads w + i)%nat = now).
  { intros i id tok Hi. apply Hfrozen.
    rewrite <- length_map_to_list. by eapply lookup_lt_Some. }
  apply map_eq. intros id. rewrite map_lookup_filter.
  destruct (Tokens_rows w !! id) as [tok|] eqn:Hid; simpl.
  - destruct (decide (fromisoformat (expiration tok) < now)) as [Hexp|Hexp].
    + rewrite option_guard_False by (simpl; tauto). simpl.
      apply elem_of_map_to_list, list_elem_of_lookup in Hid as [i Hi].
      apply (Hgone id i tok Hi). by rewrite (Hread i id tok Hi).
    + rewrite option_guard_True by done. simpl.
      rewrite Hkept; [done|].
      intros i tok' Hi. rewrite (Hread i id tok' Hi).
      assert (Tokens_rows w !! id = Some tok') as Hid'.
      { apply elem_of_map_to_list, list_elem_of_lookup. eauto. }
      rewrite Hid in Hid'. by injection Hid' as <-.
  - destruct (Hmono id) as [H|H]; [done|]. by rewrite H.
Qed.

(** The special case of a clock that stands still during the sweep: when
    every reading is [now], [token_cleanup] leaves exactly the rows whose
    stored expiration is not strictly before [now], and the text it returns
    reports the number of rows that went. *)
Lemma token_cleanup_under_steady_clock (w : World) (now : Z) :
  (∀ i, (i < size (Tokens_rows w))%nat -> now_at (clock_reads w + i)%nat = now) ->
  Tokens_rows (snd (token_cleanup now_at w))
  = filter (λ row : string * Tokens, ¬ fromisoformat (expiration row.2) < now)
      (Tokens_rows w)
  ∧ fst (token_cleanup now_at w)
    = Ret ("finished cleaning "
           ++ pretty (Z.of_nat (size (filter
                 (λ row : string * Tokens, fromisoformat (expiration row.2) < now)
                 (Tokens_rows w))))
           ++ " expired tokens").
Proof.
  intros Hfrozen.
  destruct (token_cleanup_loop_frozen w now Hfrozen) as (w' & Hrun & Hrows).
  unfold token_cleanup, Tokens_all, Tokens_count, log_warning. run.
  rewrite Hrun. simpl. split; [done|].
  do 3 f_equal.
  rewrite length_map_to_list, Hrows.
  rewrite <- (map_filter_union_complement
                (λ row : string * Tokens, fromisoformat (expiration row.2) < now)
                (Tokens_rows w)) at 1.
  rewrite map_size_disj_union by apply map_disjoint_filter_complement.
  f_equal. lia.
Qed.

(** C6 (as amended): [token_cleanup] has no single observed time; it reads
    the clock once for every row, in the order in which [Tokens.all()]
    lists them.  The [i]-th row listed is gone afterwards exactly when its
    stored expiration is strictly before the [i]-th reading of the sweep,
    and otherwise is still there unchanged; no row appears that was not
    there; and the text returned reports the number of rows that are
    gone. *)
Theorem token_cleanup_removes_rows_expired_at_their_reading (w : World) :
  (∀ (i : nat) (id : string) (tok : Tokens),
     map_to_list (Tokens_rows w) !! i = Some (id, tok) ->
     Tokens_rows (snd (token_cleanup now_at w)) !! id
     = if bool_decide (fromisoformat (expiration tok)
                       < now_at (clock_reads w + i)%nat)
       then None else Some tok)
  ∧ Tokens_rows (snd (token_cleanup now_at w)) ⊆ Tokens_rows w
  ∧ fst (token_cleanup now_at w)
    = Ret ("finished cleaning "
           ++ pretty (Z.of_nat (size (Tokens_rows w
                                      ∖ Tokens_rows (snd (token_cleanup now_at w)))))
           ++ " expired tokens").
Proof.
  destruct (token_cleanup_loop_spec (map_to_list (Tokens_rows w)) w)
    as (w' & Hrun & _ & Hmono & Hgone & Hkept).
  assert (Hsub : Tokens_rows w' ⊆ Tokens_rows w).
  { apply map_subseteq_spec. intros id tok Hid.
    destruct (Hmono id) as [H|H]; [by rewrite H in Hid|by rewrite <- H]. }
  unfold token_cleanup, Tokens_all, Tokens_count, log_warning. run.
  rewrite Hrun. simpl. split_and!; [|done|].
  - intros i id tok Hi. case_bool_decide as Hexp.
    + by apply (Hgone id i tok Hi).
    + rewrite Hkept.
      * apply elem_of_map_to_list, list_elem_of_lookup. eauto.
      * intros j tok' Hj.
        assert (i = j) as <-.
        { apply (NoDup_lookup ((map_to_list (Tokens_rows w)).*1) i j id).
          - apply NoDup_fst_map_to_list.
          - by rewrite list_lookup_fmap, Hi.
          - by rewrite list_lookup_fmap, Hj. }
        rewrite Hi in Hj. by injection Hj as <-.
  - do 3 f_equal.
    rewrite length_map_to_list.
    rewrite <- (map_difference_union _ _ Hsub) at 1.
    rewrite map_size_disj_union by (by apply map_disjoint_difference_r1).
    f_equal. lia.
Qed.

End CleanupFacts.

(** ** Password validation *)

Section PasswordFacts.

Variable checkpw : string -> string -> outcome bool.

(** What [validate_user_pw] answers for a stored, non-service user, by
    the outcome of the hash comparison. *)
Lemma validate_user_pw_by_comparison (name pw : string) (w : World) (u : Users) :
  List.find (fun u => String.eqb (username u) name) (Users_rows w) = Some u ->
  String.eqb (account_type u) "service" = false ->
  fst (validate_user_pw checkpw name pw w)
  = match checkpw pw (password u) with
    | Ret true => Ret (Some u)
    | Ret false => Ret None
    | Raise e => if is_ValueError e then Ret (Some u) else Ret None
    end.
Proof.
  intros Hfind Hkind.
  unfold validate_user_pw, Users_get. run. rewrite Hfind, Hkind.
  unfold validate_user_pw_outer, validate_user_pw_inner, is_password_valid,
    log_exception, log_error, encode. run.
  destruct (checkpw pw (password u)) as [[|]|e]; simpl; try done.
  by destruct (is_ValueError e).
Qed.

(** C1 (the code departs from it): when the hash comparison raises a
    [ValueError], the inner handler logs it and control reaches
    [return user]: the user object is returned. *)
Theorem validate_user_pw_ValueError_returns_user (name pw : string)
    (w : World) (u : Users) (e : exn) :
  List.find (fun u => String.eqb (username u) name) (Users_rows w) = Some u ->
  String.eqb (account_type u) "service" = false ->
  checkpw pw (password u) = Raise e ->
  is_ValueError e = true ->
  fst (validate_user_pw checkpw name pw w) = Ret (Some u).
Proof.
  intros Hfind Hkind Hraise Hval.
  rewrite (validate_user_pw_by_comparison name pw w u Hfind Hkind).
  by rewrite Hraise, Hval.
Qed.

(** Any other exception of the comparison is answered with [None]. *)
Lemma validate_user_pw_other_exception (name pw : string)
    (w : World) (u : Users) (e : exn) :
  List.find (fun u => String.eqb (username u) name) (Users_rows w) = Some u ->
  String.eqb (account_type u) "service" = false ->
  checkpw pw (password u) = Raise e ->
  is_ValueError e = false ->
  fst (validate_user_pw checkpw name pw w) = Ret None.
Proof.
  intros Hfind Hkind Hraise Hval.
  rewrite (validate_user_pw_by_comparison name pw w u Hfind Hkind).
  by rewrite Hraise, Hval.
Qed.

(** C2 (as amended): by the row that [Users.get] finds for the name, for
    every password.  No row of that name in the [Users] table (an account
    kept in another table is not looked at): [None] is returned.  A row
    whose [account_type] is "service": [HTTPException(401)] is raised.  A
    row of any other type: a password for which the comparison answers
    [False] gives [None], returned and not raised. *)
Theorem validate_user_pw_service_or_wrong_password (name pw : string) (w : World) :
  (List.find (fun u => String.eqb (username u) name) (Users_rows w) = None ->
   fst (validate_user_pw checkpw name pw w) = Ret None)
  ∧ (∀ u : Users,
       List.find (fun u => String.eqb (username u) name) (Users_rows w) = Some u ->
       account_type u = "service" ->
       fst (validate_user_pw checkpw name pw w)
       = Raise (HTTPException 401 (Detail "unable to login with service accounts")))
  ∧ (∀ u : Users,
       List.find (fun u => String.eqb (username u) name) (Users_rows w) = Some u ->
       account_type u ≠ "service" ->
       checkpw pw (password u) = Ret false ->
       fst (validate_user_pw checkpw name pw w) = Ret None).
Proof.
  split_and!.
  - intros Hfind. unfold validate_user_pw, Users_get. run. by rewrite Hfind.
  - intros u Hfind Hsvc. unfold validate_user_pw, Users_get. run.
    by rewrite Hfind, Hsvc.
  - intros u Hfind Hkind Hwrong.
    apply String.eqb_neq in Hkind.
    rewrite (validate_user_pw_by_comparison name pw w u Hfind Hkind).
    by rewrite Hwrong.
Qed.

End PasswordFacts.

(** ** Permission resolution *)

Section PermissionFacts.

(** The names stored under [key], the empty list when the key is unset. *)
Let names (key : string) (d : permissions_dict) : list string :=
  default [] (d !! key).

(** A row is never found among names: the membership tests of
    [get_user_permissions] always answer "not in". *)
Lemma py_in_row_false (probe : pyobj) (l : list string) :
  (∀ s, probe ≠ PyStr s) -> py_in probe l = false.
Proof.
  intros Hrow. unfold py_in. induction l as [|n l IH]; [done|].
  cbn [existsb]. rewrite IH, orb_false_r.
  destruct probe as [s| | |]; [by destruct (Hrow s)|done..].
Qed.

Lemma names_add_unless_in (key key' : string) (probe : pyobj) (name : string)
    (d : permissions_dict) :
  (∀ s, probe ≠ PyStr s) ->
  names key' (add_unless_in key probe name d)
  = if decide (key = key') then (names key' d ++ [name])%list else names key' d.
Proof.
  intros Hrow. unfold add_unless_in. rewrite py_in_row_false by done.
  unfold names, append_name, ensure_key.
  destruct (decide (key = key')) as [<-|Hne].
  - rewrite lookup_alter_eq. destruct (d !! key) eqn:Hd; simpl.
    + by rewrite Hd.
    + by rewrite lookup_insert_eq.
  - rewrite lookup_alter_ne by done.
    destruct (d !! key); [done|]. by rewrite lookup_insert_ne.
Qed.

Lemma names_visit_actions (key : string) (l : list Actions) (d : permissions_dict) :
  names key (fold_left visit_action l d)
  = if decide ("actions" = key) then (names key d ++ map action l)%list
    else names key d.
Proof.
  revert d. induction l as [|a l IH]; intros d; simpl.
  - case_decide; [by rewrite app_nil_r|done].
  - rewrite IH. unfold visit_action. rewrite names_add_unless_in by done.
    case_decide; [|done]. by rewrite <- app_assoc.
Qed.

Lemma names_visit_roles (key : string) (l : list Roles) (d : permissions_dict) :
  names key (fold_left visit_role l d)
  = if decide ("actions" = key)
    then (names key d ++ map action (flat_map actions l))%list
    else if decide ("roles" = key) then (names key d ++ map role l)%list
         else names key d.
Proof.
  revert d. induction l as [|r l IH]; intros d; simpl.
  - repeat case_decide; by rewrite ?app_nil_r.
  - rewrite IH. unfold visit_role.
    rewrite names_add_unless_in, names_visit_actions by done.
    repeat case_decide; subst; try done.
    + by rewrite List.map_app, app_assoc.
    + by rewrite <- app_assoc.
Qed.

Lemma names_visit_groups (key : string) (l : list Groups) (d : permissions_dict) :
  names key (fold_left visit_group l d)
  = if decide ("actions" = key)
    then (names key d ++ map action (flat_map actions (flat_map roles l)))%list
    else if decide ("roles" = key)
         then (names key d ++ map role (flat_map roles l))%list
         else if decide ("groups" = key)
              then (names key d ++ map group_name l)%list
              else names key d.
Proof.
  revert d. induction l as [|g l IH]; intros d; simpl.
  - repeat case_decide; by rewrite ?app_nil_r.
  - rewrite IH. unfold visit_group.
    rewrite names_add_unless_in, names_visit_roles by done.
    repeat case_decide; subst; try done.
    + by rewrite List.flat_map_app, List.map_app, app_assoc.
    + by rewrite List.map_app, app_assoc.
    + by rewrite <- app_assoc.
Qed.

(** X3: What [get_user_permissions] builds: the user's own name under
    ["users"], and under ["actions"], ["roles"] and ["groups"] one entry
    for every path of the graph that reaches the name, in traversal
    order. *)
Lemma get_user_permissions_lists (user : Users) :
  get_user_permissions user !! "users" = Some [username user]
  ∧ default [] (get_user_permissions user !! "actions")
    = map action (flat_map actions (flat_map roles (groups user)))
  ∧ default [] (get_user_permissions user !! "roles")
    = map role (flat_map roles (groups user))
  ∧ default [] (get_user_permissions user !! "groups")
    = map group_name (groups user).
Proof.
  unfold get_user_permissions. split_and!.
  - apply lookup_insert_eq.
  - rewrite lookup_insert_ne by done.
    fold (names "actions" (fold_left visit_group (groups user) ∅)).
    by rewrite names_visit_groups.
  - rewrite lookup_insert_ne by done.
    fold (names "roles" (fold_left visit_group (groups user) ∅)).
    by rewrite names_visit_groups.
  - rewrite lookup_insert_ne by done.
    fold (names "groups" (fold_left visit_group (groups user) ∅)).
    by rewrite names_visit_groups.
Qed.

(** C3 (the code departs from it): for the user of the spec's example,
    in group G1 (role R1 with actions A1, A2) and group G2 (role R2 with
    action A2), the action A2 is listed twice. *)
Theorem get_user_permissions_repeats_action :
  get_user_permissions alice !! "actions" = Some ["A1"; "A2"; "A2"]
  ∧ ¬ NoDup (default [] (get_user_permissions alice !! "actions"))
  ∧ get_user_permissions alice !! "users" = Some ["alice"].
Proof.
  assert (H : get_user_permissions alice !! "actions" = Some ["A1"; "A2"; "A2"])
    by (vm_compute; reflexivity).
  split_and!; [done| |by vm_compute].
  rewrite H. simpl. intros Hnd.
  apply NoDup_cons in Hnd as [_ Hnd].
  apply NoDup_cons in Hnd as [Hin _].
  apply Hin. by left.
Qed.

End PermissionFacts.

(** ** The permission gate *)

Section GateFacts.

Lemma scan_values_true (values held : list string) (allowed : bool) :
  scan_values values held allowed = true
  <-> allowed = true ∨ ∃ v, v ∈ values ∧ v ∈ held.
Proof.
  induction values as [|v rest IH]; simpl.
  - split; [by left|]. intros [H|(v & Hv & _)]; [done|]. by inversion Hv.
  - case_bool_decide as Hv.
    + split; [|done]. intros _. right. exists v. split; [by left|done].
    + rewrite IH. split.
      * intros [H|(x & Hx & Hh)]; [by left|].
        right. exists x. split; [by right|done].
      * intros [H|(x & Hx & Hh)]; [by left|].
        apply elem_of_cons in Hx as [->|Hx]; [done|].
        right. by exists x.
Qed.

(** The loop over the requirement always finishes, and it ends with
    [allowed] set exactly when it started set or some item shares a value
    with the same dimension of the token. *)
Lemma check_items_spec (items : list (string * list string))
    (granted : permissions_dict) :
  ∀ (allowed : bool) (w : World), ∃ (b : bool) (w' : World),
    check_items items granted allowed w = (Ret b, w')
    ∧ (b = true <->
       allowed = true
       ∨ ∃ auth_type values held v,
           (auth_type, values) ∈ items ∧ granted !! auth_type = Some held
           ∧ v ∈ values ∧ v ∈ held).
Proof.
  induction items as [|[auth_type values] rest IH]; intros allowed w; simpl.
  - exists allowed, w. split; [done|]. split; [by left|].
    intros [H|(k & vs & held & v & Hin & _)]; [done|]. by inversion Hin.
  - destruct (granted !! auth_type) as [held|] eqn:Hg.
    + destruct (IH (scan_values values held allowed) w) as (b & w' & Hrun & Hb).
      exists b, w'. split; [done|]. rewrite Hb, scan_values_true. split.
      * intros [[H|(v & Hv & Hh)]|(k & vs & h & v & Hin & Hk & Hv & Hh)].
        -- by left.
        -- right. exists auth_type, values, held, v. split_and!; [by left|done..].
        -- right. exists k, vs, h, v. split_and!; [by right|done..].
      * intros [H|(k & vs & h & v & Hin & Hk & Hv & Hh)]; [by left; left|].
        apply elem_of_cons in Hin as [[= -> ->]|Hin].
        -- left. right. exists v. rewrite Hg in Hk. by injection Hk as ->.
        -- right. by exists k, vs, h, v.
    + unfold log_warning. run.
      destruct (IH allowed (set_log (fun l => (l ++ [(WARNING, IsRequired auth_type)])%list) w))
        as (b & w' & Hrun & Hb).
      exists b, w'. split; [done|]. rewrite Hb. split.
      * intros [H|(k & vs & h & v & Hin & Hk & Hv & Hh)]; [by left|].
        right. exists k, vs, h, v. split_and!; [by right|done..].
      * intros [H|(k & vs & h & v & Hin & Hk & Hv & Hh)]; [by left|].
        apply elem_of_cons in Hin as [[= -> ->]|Hin].
        -- rewrite Hg in Hk. discriminate.
        -- right. by exists k, vs, h, v.
Qed.

(** C4: the gate lets the request through to the endpoint exactly when
    some dimension of the requirement is also a dimension of the token's
    permissions and the two lists share a value; a requirement without
    any dimension is refused (403). *)
Theorem mock_function_gate_allows_iff_overlap (html : bool)
    (required : permissions_dict) (tok : payload) (w : World) :
  (fst (mock_function_gate html required tok w) = Ret CallEndpoint
   <-> ∃ auth_type values held v,
         required !! auth_type = Some values
         ∧ permissions tok !! auth_type = Some held
         ∧ v ∈ values ∧ v ∈ held)
  ∧ fst (mock_function_gate html ∅ tok w)
    = (if html then Ret (HTMLResponse Page403 403)
       else Raise (HTTPException 403 (PermissionsRequired ∅))).
Proof.
  split.
  - unfold mock_function_gate.
    destruct (check_items_spec (map_to_list required) (permissions tok) false w)
      as (b & w' & Hrun & Hb).
    run. rewrite Hrun. simpl.
    assert (Hiff : b = true <->
              ∃ auth_type values held v,
                required !! auth_type = Some values
                ∧ permissions tok !! auth_type = Some held
                ∧ v ∈ values ∧ v ∈ held).
    { rewrite Hb. split.
      - intros [H|(k & vs & h & v & Hin & Hrest)]; [done|].
        exists k, vs, h, v. by rewrite <- elem_of_map_to_list.
      - intros (k & vs & h & v & Hin & Hrest). right.
        exists k, vs, h, v. by rewrite elem_of_map_to_list. }
    rewrite <- Hiff. destruct b; simpl; [done|].
    split; [|done]. by destruct html.
  - unfold mock_function_gate. rewrite map_to_list_empty. run.
    by destruct html.
Qed.

End GateFacts.

(** ** Google federation *)

Section FederationFacts.

Variable now_at : nat -> Z.
Variable uuid4_at : nat -> string.
Variable verify_oauth2_token : string -> string -> outcome idinfo.
Variable register_user : registration -> M World string.

(** The check of the claims raises the generic error, and only writes to
    the log, when the address is absent or not verified. *)
Lemma validated_email_rejects (code : string) (config : OauthConfig)
    (info : idinfo) (w : World) :
  verify_oauth2_token code (client_id config) = Ret info ->
  id_email info = None ∨ id_email_verified info ≠ Some true ->
  ∃ e, validated_email verify_oauth2_token code config w
       = (Raise (HTTPException 400 (Detail "Unable to validate social login")),
          set_log (fun l => (l ++ [(ERROR, ErrorValidatingSocialLogin e)])%list) w).
Proof.
  intros Hverify Hclaims.
  unfold validated_email, log_exception, claim. run. rewrite Hverify. simpl.
  destruct (id_email info) as [mail|]; simpl; [|eauto].
  case_bool_decide; simpl; [eauto|].
  destruct Hclaims as [|Hnot]; [done|].
  destruct (id_email_verified info) as [[|]|]; simpl; [done|eauto..].
Qed.

(** C9: when the provider's verified claims lack [email], or
    [email_verified] is not true, the federation entry point raises
    [HTTPException(400, "Unable to validate social login")]; the user
    table and the token table are what they were. *)
Theorem generate_google_oauth_token_rejects_unverified
    (request : option Request) (auth_code : option string) (w : World)
    (config : OauthConfig) (others : list OauthConfig)
    (code : string) (info : idinfo) :
  List.filter (fun c => String.eqb (provider c) "google") (OauthConfig_rows w)
  = config :: others ->
  posted_code request auth_code = Ret code ->
  verify_oauth2_token code (client_id config) = Ret info ->
  id_email info = None ∨ id_email_verified info ≠ Some true ->
  fst (generate_google_oauth_token now_at uuid4_at verify_oauth2_token
         register_user request auth_code w)
  = Raise (HTTPException 400 (Detail "Unable to validate social login"))
  ∧ Users_rows (snd (generate_google_oauth_token now_at uuid4_at
                       verify_oauth2_token register_user request auth_code w))
    = Users_rows w
  ∧ Tokens_rows (snd (generate_google_oauth_token now_at uuid4_at
                        verify_oauth2_token register_user request auth_code w))
    = Tokens_rows w.
Proof.
  intros Hconfig Hcode Hverify Hclaims.
  destruct (validated_email_rejects code config info w Hverify Hclaims) as [e He].
  unfold generate_google_oauth_token, OauthConfig_filter_provider. run.
  rewrite Hconfig, Hcode. simpl. rewrite He. by simpl.
Qed.

End FederationFacts.

(** ** Key bootstrap *)

Section KeyManagerFacts.

Variable random_at : nat -> nat.
Variable rsa_at : nat -> Z.
Variable from_json : string -> outcome JWK.
Variable export_private : JWK -> string.
Variable export_public : JWK -> string.

(** Drawing [n] letters returns a text of [n] letters and only advances
    the random source. *)
Lemma generate_random_string_spec (n : nat) :
  ∀ h : Host, ∃ s : string,
    generate_random_string random_at n h
    = (Ret s, set_random_draws (fun d => (d + n)%nat) h)
    ∧ String.length s = n.
Proof.
  induction n as [|n IH]; intros h; simpl.
  - exists EmptyString. split; [|done]. unfold ret, set_random_draws.
    destruct h. simpl. by rewrite Nat.add_0_r.
  - unfold random_choice. run.
    destruct (IH (set_random_draws S h)) as (s & Hrun & Hlen).
    rewrite Hrun.
    exists (String (nth (random_at (random_draws h) mod length ascii_lowercase)%nat
                      ascii_lowercase "a"%char) s).
    split; [|simpl; by rewrite Hlen].
    unfold set_random_draws. simpl. do 2 f_equal. lia.
Qed.

Lemma key_file_is_not_pub_file (key_path : string) :
  key_path ++ ".pub" ≠ key_path ++ ".key".
Proof.
  induction key_path as [|c key_path IH]; simpl; [done|].
  intros [= H]. by apply IH.
Qed.

(** On a host whose key directory and marker file exist, the opening of
    [key_setup] only computes the path. *)
Lemma key_file_path_booted (h : Host) (path name : string) (marker : File) :
  host_environ h !! "KEY_NAME" = Some name ->
  host_environ h !! "KEY_PATH" = Some path ->
  path ≠ "" ->
  path ∈ dirs h ->
  files h !! (path ++ "/" ++ name) = Some marker ->
  key_file_path h = (Ret (path ++ "/" ++ name), h).
Proof.
  intros Hname Hpath Hne Hdir Hmarker.
  unfold key_file_path, getenv, host_env, os_path_exists. run.
  rewrite Hname.
  rewrite (bool_decide_eq_true_2 (is_Some (Some name))) by eauto. simpl.
  rewrite Hpath. simpl.
  rewrite (bool_decide_eq_true_2 (path ∈ dirs h)) by done. simpl.
  rewrite Hname. simpl.
  rewrite (bool_decide_eq_false_2 (path = "")) by done.
  rewrite Hmarker.
  rewrite (bool_decide_eq_true_2 (is_Some (Some marker))) by eauto.
  by rewrite orb_true_r.
Qed.

(** A private-key file that cannot be read or parsed is overwritten with
    a newly generated key when the file is writable. *)
Lemma load_or_create_key_damaged (h : Host) (key_path : string) (key_file : File) :
  key_path ++ ".key" ∉ dirs h ->
  files h !! (key_path ++ ".key") = Some key_file ->
  writable key_file = true ->
  readable key_file = false
  ∨ (∃ e, from_json (readline (content key_file)) = Raise e) ->
  ∃ s : string,
    String.length s = 56%nat
    ∧ load_or_create_key random_at rsa_at from_json export_private key_path h
      = (Ret tt,
         set_files
           (insert (key_path ++ ".key")
              {| content := export_private
                              {| kid := s; secret := rsa_at (random_draws h + 56)%nat |};
                 readable := readable key_file; writable := true |})
           (set_host_privkey
              {| kid := s; secret := rsa_at (random_draws h + 56)%nat |}
              (set_random_draws S (set_random_draws (fun d => (d + 56)%nat) h)))).
Proof.
  intros Hkdir Hkey Hw Hbad.
  destruct (generate_random_string_spec 56 h) as (s & Hgen & Hlen).
  exists s. split; [done|].
  assert (Hfail : ∃ e,
    (text <- open_read (key_path ++ ".key") ;;
     k <- lift (from_json (readline text)) ;;
     modify (set_host_privkey k)) h = (Raise e, h)).
  { unfold open_read. run.
    rewrite bool_decide_eq_false_2 by done. rewrite Hkey.
    destruct (readable key_file) eqn:Hr; [|eauto].
    destruct Hbad as [|[e He]]; [done|]. exists e. by rewrite He. }
  destruct Hfail as [e Hfail].
  unfold load_or_create_key, try_except. rewrite Hfail. simpl.
  rewrite (bind_Ret _ _ _ _ _ Hgen).
  unfold JWK_generate, write_file. run.
  rewrite bool_decide_eq_false_2 by done. by rewrite Hkey, Hw.
Qed.

(** A readable public-key file is left alone. *)
Lemma ensure_public_key_present (h : Host) (key_path : string) (pub_file : File) :
  key_path ++ ".pub" ∉ dirs h ->
  files h !! (key_path ++ ".pub") = Some pub_file ->
  readable pub_file = true ->
  ensure_public_key export_public key_path h = (Ret tt, h).
Proof.
  intros Hpdir Hpub Hr.
  unfold ensure_public_key, open_read. run.
  rewrite bool_decide_eq_false_2 by done. by rewrite Hpub, Hr.
Qed.

(** C8 (as amended): on a host that has booted before (key directory,
    marker file and readable public-key file in place), a private-key
    file that cannot be read, or whose first line does not parse, does not
    stop start-up when the file can be written: [key_setup] returns
    normally, keeps a freshly generated key with a 56-letter identifier,
    and the private-key file now holds that new key. *)
Theorem key_setup_replaces_damaged_key (h : Host) (path name : string)
    (marker key_file pub_file : File) :
  host_environ h !! "KEY_NAME" = Some name ->
  host_environ h !! "KEY_PATH" = Some path ->
  path ≠ "" ->
  path ∈ dirs h ->
  files h !! (path ++ "/" ++ name) = Some marker ->
  (path ++ "/" ++ name) ++ ".key" ∉ dirs h ->
  (path ++ "/" ++ name) ++ ".pub" ∉ dirs h ->
  files h !! ((path ++ "/" ++ name) ++ ".key") = Some key_file ->
  files h !! ((path ++ "/" ++ name) ++ ".pub") = Some pub_file ->
  readable pub_file = true ->
  writable key_file = true ->
  readable key_file = false
  ∨ (∃ e, from_json (readline (content key_file)) = Raise e) ->
  ∃ (h' : Host) (k : JWK),
    key_setup random_at rsa_at from_json export_private export_public h
    = (Ret tt, h')
    ∧ host_privkey h' = Some k
    ∧ String.length (kid k) = 56%nat
    ∧ secret k = rsa_at (random_draws h + 56)%nat
    ∧ files h' !! ((path ++ "/" ++ name) ++ ".key")
      = Some {| content := export_private k; readable := readable key_file;
                writable := true |}.
Proof.
  intros Hname Hpath Hne Hdir Hmarker Hkdir Hpdir Hkey Hpub Hpubr Hw Hbad.
  destruct (load_or_create_key_damaged h (path ++ "/" ++ name) key_file
              Hkdir Hkey Hw Hbad) as (s & Hlen & Hload).
  match type of Hload with
  | _ = (_, ?h1) =>
      exists h1, {| kid := s; secret := rsa_at (random_draws h + 56)%nat |}
  end.
  split_and!; [|reflexivity|done|done|apply lookup_insert_eq].
  unfold key_setup.
  rewrite (bind_Ret _ _ _ _ _ (key_file_path_booted h path name marker
                                 Hname Hpath Hne Hdir Hmarker)).
  rewrite (bind_Ret _ _ _ _ _ Hload).
  apply (ensure_public_key_present _ _ pub_file); simpl; [done| |done].
  rewrite lookup_insert_ne by (apply not_eq_sym, key_file_is_not_pub_file).
  done.
Qed.

End KeyManagerFacts.

(** ** The theorems at concrete inputs *)

(** [mallory]'s stored hash is not a bcrypt hash: the comparison raises
    [ValueError] and [validate_user_pw] hands back the user. *)
Lemma validate_user_pw_ValueError_returns_user_witness :
  fst (validate_user_pw prefix_checkpw "mallory" "guess" world0) = Ret (Some mallory).
Proof.
  apply (validate_user_pw_ValueError_returns_user prefix_checkpw
           "mallory" "guess" world0 mallory (ValueError "Invalid salt"));
    reflexivity.
Defined.

(** The service account [robot] is turned away with an exception, not with
    [None]. *)
Lemma validate_user_pw_service_raises :
  fst (validate_user_pw prefix_checkpw "robot" "beep" world0)
  = Raise (HTTPException 401 (Detail "unable to login with service accounts"))
  ∧ fst (validate_user_pw prefix_checkpw "robot" "beep" world0) ≠ Ret None.
Proof. split; [reflexivity|discriminate]. Defined.

(** The three cases at work: a name without a row, the service account
    [robot], and a wrong password for [alice]. *)
Lemma validate_user_pw_service_or_wrong_password_witness :
  fst (validate_user_pw prefix_checkpw "nobody" "beep" world0) = Ret None
  ∧ fst (validate_user_pw prefix_checkpw "robot" "beep" world0)
    = Raise (HTTPException 401 (Detail "unable to login with service accounts"))
  ∧ fst (validate_user_pw prefix_checkpw "alice" "looking-glass" world0) = Ret None.
Proof.
  split_and!.
  - apply (validate_user_pw_service_or_wrong_password prefix_checkpw
             "nobody" "beep" world0). reflexivity.
  - apply (validate_user_pw_service_or_wrong_password prefix_checkpw
             "robot" "beep" world0) with (u := robot); reflexivity.
  - apply (validate_user_pw_service_or_wrong_password prefix_checkpw
             "alice" "looking-glass" world0) with (u := alice);
      [reflexivity|discriminate|reflexivity].
Defined.

(** Two issuances whose row and token do not expire at the same time.
    With a lifetime of 60 minutes and a clock that reads 1000, 1001 and
    1002 microseconds, the row expires at 3600001000 microseconds while the
    token's [exp] is the whole second 3600, i.e. 3600000000 microseconds.
    With a lifetime of zero the row expires at the first reading and the
    token has no [exp] at all. *)
Lemma issue_token_expirations_differ :
  (∃ (t : JWT) (w' : World) (row : Tokens),
     issue_token ticking_clock numbered_uuid (get_user_permissions alice) 60 0 0 world0
     = (Ret t, w')
     ∧ Tokens_rows w' !! token_id (claims t) = Some row
     ∧ fromisoformat (expiration row) = 3600001000
     ∧ exp t = Some 3600
     ∧ 3600 * 1000000 ≠ fromisoformat (expiration row))
  ∧ (∃ (t : JWT) (w' : World) (row : Tokens),
       issue_token ticking_clock numbered_uuid (get_user_permissions alice) 0 0 0 world0
       = (Ret t, w')
       ∧ Tokens_rows w' !! token_id (claims t) = Some row
       ∧ fromisoformat (expiration row) = 1000
       ∧ exp t = None).
Proof.
  split.
  - destruct (issue_token ticking_clock numbered_uuid (get_user_permissions alice)
                60 0 0 world0) as [[t|e] w'] eqn:Hrun.
    + exists t, w'.
      assert (Ht : (Ret t, w')
                   = issue_token ticking_clock numbered_uuid
                       (get_user_permissions alice) 60 0 0 world0) by done.
      vm_compute in Ht. injection Ht as -> ->.
      eexists. split_and!; [done|by vm_compute|done|done|done].
    + vm_compute in Hrun. discriminate.
  - destruct (issue_token ticking_clock numbered_uuid (get_user_permissions alice)
                0 0 0 world0) as [[t|e] w'] eqn:Hrun.
    + exists t, w'.
      assert (Ht : (Ret t, w')
                   = issue_token ticking_clock numbered_uuid
                       (get_user_permissions alice) 0 0 0 world0) by done.
      vm_compute in Ht. injection Ht as -> ->.
      eexists. split_and!; [done|by vm_compute|done|done].
    + vm_compute in Hrun. discriminate.
Defined.

Lemma issue_token_row_and_token_witness :
  ∃ (t : JWT) (w' : World) (row : Tokens),
    issue_token ticking_clock numbered_uuid (get_user_permissions alice) 60 0 0 world0
    = (Ret t, w')
    ∧ Tokens_rows w' !! token_id (claims t) = Some row
    ∧ token_id (claims t) = "uuid-0"
    ∧ fromisoformat (expiration row) = 1000 + timedelta 60 0 0
    ∧ exp t = Some ((1002 + timedelta 60 0 0) / 1000000).
Proof.
  destruct (issue_token ticking_clock numbered_uuid (get_user_permissions alice)
              60 0 0 world0) as [[t|e] w'] eqn:Hrun.
  - exists t, w'.
    destruct (issue_token_row_and_token ticking_clock numbered_uuid
                (get_user_permissions alice) 60 0 0 world0 w' t Hrun)
      as (row & Hrow & Hid & Hexp & Htok).
    exists row. split_and!; done.
  - vm_compute in Hrun. discriminate.
Defined.

(** Two rows with the same stored expiration, 1000, swept under a clock
    that reads 1000 at the first row and 1001 at the second: the first row
    stays and the second goes.  Whatever time is taken as the observed
    time of this sweep, the rows left are not the rows that are not expired
    at that time. *)
Lemma token_cleanup_same_expiration_different_fate :
  Tokens_rows world_tie !! "ta" = Some (token_row "alice" 1000)
  ∧ Tokens_rows world_tie !! "tb" = Some (token_row "mallory" 1000)
  ∧ fromisoformat (expiration (token_row "alice" 1000)) = 1000
  ∧ fromisoformat (expiration (token_row "mallory" 1000)) = 1000
  ∧ Tokens_rows (snd (token_cleanup ticking_clock world_tie)) !! "ta"
    = Some (token_row "alice" 1000)
  ∧ Tokens_rows (snd (token_cleanup ticking_clock world_tie)) !! "tb" = None
  ∧ ¬ ∃ now : Z,
        Tokens_rows (snd (token_cleanup ticking_clock world_tie))
        = filter (λ row : string * Tokens, ¬ fromisoformat (expiration row.2) < now)
            (Tokens_rows world_tie).
Proof.
  assert (Ha : Tokens_rows (snd (token_cleanup ticking_clock world_tie)) !! "ta"
               = Some (token_row "alice" 1000)) by (by vm_compute).
  assert (Hb : Tokens_rows (snd (token_cleanup ticking_clock world_tie)) !! "tb" = None)
    by (by vm_compute).
  split_and!; [by vm_compute|by vm_compute|done|done|done|done|].
  intros [now Hnow]. rewrite Hnow in Ha, Hb.
  apply map_lookup_filter_Some in Ha as [_ Ha]. simpl in Ha.
  apply map_lookup_filter_None in Hb as [Hb|Hb]; [by vm_compute in Hb|].
  apply (Hb (token_row "mallory" 1000)); [by vm_compute|]. simpl. lia.
Defined.

(** The same sweep, row by row: the row listed first meets the reading
    1000 and stays, the row listed second meets the reading 1001 and goes,
    and the text reports one row. *)
Lemma token_cleanup_removes_rows_expired_at_their_reading_witness :
  Tokens_rows (snd (token_cleanup ticking_clock world_tie)) !! "ta"
  = Some (token_row "alice" 1000)
  ∧ Tokens_rows (snd (token_cleanup ticking_clock world_tie)) !! "tb" = None
  ∧ fst (token_cleanup ticking_clock world_tie)
    = Ret "finished cleaning 1 expired tokens".
Proof.
  destruct (token_cleanup_removes_rows_expired_at_their_reading
              ticking_clock world_tie) as (Hrow & _ & Htext).
  split_and!.
  - rewrite (Hrow 0%nat "ta" (token_row "alice" 1000)) by (by vm_compute).
    by vm_compute.
  - rewrite (Hrow 1%nat "tb" (token_row "mallory" 1000)) by (by vm_compute).
    by vm_compute.
  - rewrite Htext. by vm_compute.
Defined.

(** A sweep at time 10 over rows expiring at 5, 10 and 15. *)
Lemma token_cleanup_under_steady_clock_witness :
  Tokens_rows (snd (token_cleanup (frozen_clock 10) world3))
  = filter (λ row : string * Tokens, ¬ fromisoformat (expiration row.2) < 10)
      (Tokens_rows world3)
  ∧ fst (token_cleanup (frozen_clock 10) world3)
    = Ret ("finished cleaning "
           ++ pretty (Z.of_nat (size (filter
                 (λ row : string * Tokens, fromisoformat (expiration row.2) < 10)
                 (Tokens_rows world3))))
           ++ " expired tokens").
Proof.
  apply (token_cleanup_under_steady_clock (frozen_clock 10) world3 10).
  intros i _. reflexivity.
Defined.

(** The damaged private-key file of [damaged_host] is overwritten and
    start-up goes on. *)
Lemma key_setup_overwrites_damaged_key :
  fst (key_setup (fun n => n) Z.of_nat brace_from_json brace_export_private
         brace_export_public damaged_host) = Ret tt
  ∧ content <$> files damaged_host !! "keys/test_key.key" = Some "%%% damaged %%%"
  ∧ content <$> files (snd (key_setup (fun n => n) Z.of_nat brace_from_json
                              brace_export_private brace_export_public damaged_host))
                  !! "keys/test_key.key"
    = Some "{private:abcdefghijklmnopqrstuvwxyzabcdefghijklmnopqrstuvwxyzabcd}".
Proof. split_and!; by vm_compute. Defined.

Lemma key_setup_replaces_damaged_key_witness :
  ∃ (h' : Host) (k : JWK),
    key_setup (fun n => n) Z.of_nat brace_from_json brace_export_private
      brace_export_public damaged_host = (Ret tt, h')
    ∧ host_privkey h' = Some k
    ∧ String.length (kid k) = 56%nat
    ∧ secret k = 56
    ∧ files h' !! "keys/test_key.key"
      = Some {| content := brace_export_private k; readable := true; writable := true |}.
Proof.
  apply (key_setup_replaces_damaged_key (fun n => n) Z.of_nat brace_from_json
           brace_export_private brace_export_public damaged_host "keys" "test_key"
           {| content := ""; readable := true; writable := true |}
           {| content := "%%% damaged %%%"; readable := true; writable := true |}
           {| content := "{public:old}"; readable := true; writable := true |});
    try (by vm_compute).
  right. by exists (ValueError "Expecting value").
Defined.

(** The provider vouches for no verified address: the generic error, and
    neither table changes. *)
Lemma generate_google_oauth_token_rejects_unverified_witness :
  fst (generate_google_oauth_token ticking_clock numbered_uuid unverified_provider
         closed_registration None (Some "code-from-google") world0)
  = Raise (HTTPException 400 (Detail "Unable to validate social login"))
  ∧ Users_rows (snd (generate_google_oauth_token ticking_clock numbered_uuid
                       unverified_provider closed_registration None
                       (Some "code-from-google") world0))
    = Users_rows world0
  ∧ Tokens_rows (snd (generate_google_oauth_token ticking_clock numbered_uuid
                        unverified_provider closed_registration None
                        (Some "code-from-google") world0))
    = Tokens_rows world0.
Proof.
  apply (generate_google_oauth_token_rejects_unverified ticking_clock numbered_uuid
           unverified_provider closed_registration None (Some "code-from-google")
           world0 google_config [] "code-from-google"
           {| id_email := Some "eve@example.org"; id_email_verified := Some false;
              id_given_name := Some "Eve"; id_family_name := Some "Example" |});
    [reflexivity|reflexivity|reflexivity|right; discriminate].
Defined.

(** A permission dict without ["users"]. *)
Lemma issue_token_requires_users_witness :
  ∃ e, fst (issue_token ticking_clock numbered_uuid {["groups" := ["G1"]]} 60 0 0 world0)
       = Raise e
       ∧ Tokens_rows (snd (issue_token ticking_clock numbered_uuid
                             {["groups" := ["G1"]]} 60 0 0 world0))
         = Tokens_rows world0
       ∧ (clock_reads (snd (issue_token ticking_clock numbered_uuid
                              {["groups" := ["G1"]]} 60 0 0 world0))
          ≤ S (clock_reads world0))%nat.
Proof.
  apply (issue_token_requires_users ticking_clock numbered_uuid
           {["groups" := ["G1"]]} 60 0 0 world0).
  left. reflexivity.
Defined.

(** ** Further facts: password validation *)

Section PasswordMoreFacts.

Variable checkpw : string -> string -> outcome bool.

(** A name without a row gives [None]; nothing is compared, nothing is
    logged. *)
Lemma validate_user_pw_unknown_user (name pw : string) (w : World) :
  List.find (fun u => String.eqb (username u) name) (Users_rows w) = None ->
  validate_user_pw checkpw name pw w = (Ret None, w).
Proof.
  intros Hfind. unfold validate_user_pw, Users_get. run. by rewrite Hfind.
Qed.

(** A password that the comparison accepts gives back the stored row of a
    non-service user, and the world is left as it was. *)
Lemma validate_user_pw_accepts_password (name pw : string) (w : World) (u : Users) :
  List.find (fun u => String.eqb (username u) name) (Users_rows w) = Some u ->
  String.eqb (account_type u) "service" = false ->
  checkpw pw (password u) = Ret true ->
  validate_user_pw checkpw name pw w = (Ret (Some u), w).
Proof.
  intros Hfind Hkind Hok.
  unfold validate_user_pw, Users_get. run. rewrite Hfind, Hkind.
  unfold validate_user_pw_outer, validate_user_pw_inner, is_password_valid, encode.
  run. by rewrite Hok.
Qed.

End PasswordMoreFacts.

(** ** Further facts: permission resolution *)

Section PermissionMoreFacts.

Lemma lookup_add_unless_in_ne (key key' : string) (probe : pyobj) (name : string)
    (d : permissions_dict) :
  key ≠ key' -> add_unless_in key probe name d !! key' = d !! key'.
Proof.
  intros Hne. unfold add_unless_in, append_name, ensure_key.
  destruct (py_in _ _).
  - destruct (d !! key); [done|]. by rewrite lookup_insert_ne.
  - rewrite lookup_alter_ne by done.
    destruct (d !! key); [done|]. by rewrite lookup_insert_ne.
Qed.

Lemma is_Some_add_unless_in (key : string) (probe : pyobj) (name : string)
    (d : permissions_dict) :
  is_Some (add_unless_in key probe name d !! key).
Proof.
  assert (He : is_Some (ensure_key key d !! key)).
  { unfold ensure_key. destruct (d !! key) as [l|] eqn:Hd.
    - rewrite Hd. by eexists.
    - rewrite lookup_insert_eq. by eexists. }
  unfold add_unless_in, append_name. cbv zeta.
  destruct (py_in _ _); [done|].
  rewrite lookup_alter_eq. destruct He as [l ->]. by eexists.
Qed.

Lemma is_Some_add_unless_in_mono (key key' : string) (probe : pyobj) (name : string)
    (d : permissions_dict) :
  is_Some (d !! key') -> is_Some (add_unless_in key probe name d !! key').
Proof.
  intros Hd. destruct (decide (key = key')) as [<-|Hne].
  - apply is_Some_add_unless_in.
  - by rewrite lookup_add_unless_in_ne.
Qed.

(** Which keys the three loops touch, and when a key is there. *)
Lemma visit_actions_mono (key : string) (l : list Actions) (d : permissions_dict) :
  is_Some (d !! key) -> is_Some (fold_left visit_action l d !! key).
Proof.
  revert d. induction l as [|a l IH]; intros d Hd; simpl; [done|].
  by apply IH, is_Some_add_unless_in_mono.
Qed.

Lemma visit_actions_ne (key : string) (l : list Actions) (d : permissions_dict) :
  key ≠ "actions" -> fold_left visit_action l d !! key = d !! key.
Proof.
  intros Hne. revert d. induction l as [|a l IH]; intros d; simpl; [done|].
  rewrite IH. by apply lookup_add_unless_in_ne.
Qed.

Lemma visit_actions_some (l : list Actions) (d : permissions_dict) :
  l ≠ [] -> is_Some (fold_left visit_action l d !! "actions").
Proof.
  destruct l as [|a l]; [done|]. intros _. simpl.
  apply visit_actions_mono, is_Some_add_unless_in.
Qed.

Lemma visit_role_mono (key : string) (r : Roles) (d : permissions_dict) :
  is_Some (d !! key) -> is_Some (visit_role d r !! key).
Proof.
  intros Hd. unfold visit_role.
  by apply is_Some_add_unless_in_mono, visit_actions_mono.
Qed.

Lemma visit_roles_mono (key : string) (l : list Roles) (d : permissions_dict) :
  is_Some (d !! key) -> is_Some (fold_left visit_role l d !! key).
Proof.
  revert d. induction l as [|r l IH]; intros d Hd; simpl; [done|].
  by apply IH, visit_role_mono.
Qed.

Lemma visit_roles_ne (key : string) (l : list Roles) (d : permissions_dict) :
  key ≠ "actions" -> key ≠ "roles" -> fold_left visit_role l d !! key = d !! key.
Proof.
  intros Hne1 Hne2. revert d. induction l as [|r l IH]; intros d; simpl; [done|].
  rewrite IH. unfold visit_role. rewrite lookup_add_unless_in_ne by done.
  by apply visit_actions_ne.
Qed.

Lemma visit_roles_some (l : list Roles) (d : permissions_dict) :
  l ≠ [] -> is_Some (fold_left visit_role l d !! "roles").
Proof.
  destruct l as [|r l]; [done|]. intros _. simpl.
  apply visit_roles_mono. unfold visit_role. apply is_Some_add_unless_in.
Qed.

Lemma visit_roles_actions_some (l : list Roles) (d : permissions_dict) :
  flat_map actions l ≠ [] -> is_Some (fold_left visit_role l d !! "actions").
Proof.
  revert d. induction l as [|r l IH]; intros d Hacts; simpl; [done|].
  simpl in Hacts. destruct (actions r) as [|a acts] eqn:Hr.
  - by apply IH.
  - apply visit_roles_mono. unfold visit_role.
    apply is_Some_add_unless_in_mono. rewrite Hr. by apply visit_actions_some.
Qed.

Lemma visit_roles_actions_none (l : list Roles) (d : permissions_dict) :
  d !! "actions" = None -> flat_map actions l = [] ->
  fold_left visit_role l d !! "actions" = None.
Proof.
  revert d. induction l as [|r l IH]; intros d Hd Hnil; simpl; [done|].
  simpl in Hnil. apply app_eq_nil in Hnil as [Hr Hl].
  apply IH; [|done]. unfold visit_role.
  rewrite lookup_add_unless_in_ne by done. by rewrite Hr.
Qed.

Lemma visit_group_mono (key : string) (g : Groups) (d : permissions_dict) :
  is_Some (d !! key) -> is_Some (visit_group d g !! key).
Proof.
  intros Hd. unfold visit_group.
  by apply is_Some_add_unless_in_mono, visit_roles_mono.
Qed.

Lemma visit_groups_mono (key : string) (l : list Groups) (d : permissions_dict) :
  is_Some (d !! key) -> is_Some (fold_left visit_group l d !! key).
Proof.
  revert d. induction l as [|g l IH]; intros d Hd; simpl; [done|].
  by apply IH, visit_group_mono.
Qed.

Lemma visit_groups_ne (key : string) (l : list Groups) (d : permissions_dict) :
  key ≠ "actions" -> key ≠ "roles" -> key ≠ "groups" ->
  fold_left visit_group l d !! key = d !! key.
Proof.
  intros Hne1 Hne2 Hne3. revert d.
  induction l as [|g l IH]; intros d; simpl; [done|].
  rewrite IH. unfold visit_group. rewrite lookup_add_unless_in_ne by done.
  by apply visit_roles_ne.
Qed.

Lemma visit_groups_some (l : list Groups) (d : permissions_dict) :
  l ≠ [] -> is_Some (fold_left visit_group l d !! "groups").
Proof.
  destruct l as [|g l]; [done|]. intros _. simpl.
  apply visit_groups_mono. unfold visit_group. apply is_Some_add_unless_in.
Qed.

Lemma visit_groups_roles_some (l : list Groups) (d : permissions_dict) :
  flat_map roles l ≠ [] -> is_Some (fold_left visit_group l d !! "roles").
Proof.
  revert d. induction l as [|g l IH]; intros d Hroles; simpl; [done|].
  simpl in Hroles. destruct (roles g) as [|r rs] eqn:Hg.
  - by apply IH.
  - apply visit_groups_mono. unfold visit_group.
    apply is_Some_add_unless_in_mono. rewrite Hg. by apply visit_roles_some.
Qed.

Lemma visit_groups_actions_some (l : list Groups) (d : permissions_dict) :
  flat_map actions (flat_map roles l) ≠ [] ->
  is_Some (fold_left visit_group l d !! "actions").
Proof.
  revert d. induction l as [|g l IH]; intros d Hacts; simpl; [done|].
  simpl in Hacts. rewrite List.flat_map_app in Hacts.
  destruct (flat_map actions (roles g)) as [|a acts] eqn:Hg.
  - by apply IH.
  - apply visit_groups_mono. unfold visit_group.
    apply is_Some_add_unless_in_mono, visit_roles_actions_some. by rewrite Hg.
Qed.

Lemma visit_groups_roles_none (l : list Groups) (d : permissions_dict) :
  d !! "roles" = None -> flat_map roles l = [] ->
  fold_left visit_group l d !! "roles" = None.
Proof.
  revert d. induction l as [|g l IH]; intros d Hd Hnil; simpl; [done|].
  simpl in Hnil. apply app_eq_nil in Hnil as [Hg Hl].
  apply IH; [|done]. unfold visit_group.
  rewrite lookup_add_unless_in_ne by done. by rewrite Hg.
Qed.

Lemma visit_groups_actions_none (l : list Groups) (d : permissions_dict) :
  d !! "actions" = None -> flat_map actions (flat_map roles l) = [] ->
  fold_left visit_group l d !! "actions" = None.
Proof.
  revert d. induction l as [|g l IH]; intros d Hd Hnil; simpl; [done|].
  simpl in Hnil. rewrite List.flat_map_app in Hnil.
  apply app_eq_nil in Hnil as [Hg Hl].
  apply IH; [|done]. unfold visit_group.
  rewrite lookup_add_unless_in_ne by done.
  by apply visit_roles_actions_none.
Qed.

(** X4: The keys of a resolved permission dict: ["users"] always; ["groups"]
    exactly when the user has a group, ["roles"] exactly when some group has
    a role, ["actions"] exactly when some role has an action; never any
    other key (in particular never ["user"]). *)
Theorem get_user_permissions_keys (user : Users) (key : string) :
  is_Some (get_user_permissions user !! key)
  <-> key = "users"
      ∨ (key = "groups" ∧ groups user ≠ [])
      ∨ (key = "roles" ∧ flat_map roles (groups user) ≠ [])
      ∨ (key = "actions" ∧ flat_map actions (flat_map roles (groups user)) ≠ []).
Proof.
  unfold get_user_permissions.
  destruct (decide (key = "users")) as [->|Hu].
  { rewrite lookup_insert_eq. split; [by left|by eexists]. }
  rewrite lookup_insert_ne by done.
  split.
  - intros Hsome. right.
    destruct (decide (key = "groups")) as [->|Hg].
    { left. split; [done|]. intros Hnil. rewrite Hnil in Hsome. simpl in Hsome.
      rewrite lookup_empty in Hsome. by destruct Hsome. }
    destruct (decide (key = "roles")) as [->|Hr].
    { right. left. split; [done|]. intros Hnil.
      rewrite visit_groups_roles_none in Hsome by done. by destruct Hsome. }
    destruct (decide (key = "actions")) as [->|Ha].
    { right. right. split; [done|]. intros Hnil.
      rewrite visit_groups_actions_none in Hsome by done. by destruct Hsome. }
    rewrite visit_groups_ne, lookup_empty in Hsome by done. by destruct Hsome.
  - intros [->|[[-> H]|[[-> H]|[-> H]]]]; [done|..].
    + by apply visit_groups_some.
    + by apply visit_groups_roles_some.
    + by apply visit_groups_actions_some.
Qed.

End PermissionMoreFacts.

(** ** Further facts: token bookkeeping *)

Section TokenServiceMoreFacts.

Variable now_at : nat -> Z.
Variable uuid4_at : nat -> string.

(** X5: Revoking one id leaves the row of every other id, the users and the
    provider rows as they were. *)
Theorem revoke_token_keeps_other_tokens (id other : string) (w : World) :
  other ≠ id ->
  Tokens_rows (snd (revoke_token id w)) !! other = Tokens_rows w !! other
  ∧ Users_rows (snd (revoke_token id w)) = Users_rows w
  ∧ OauthConfig_rows (snd (revoke_token id w)) = OauthConfig_rows w.
Proof.
  intros Hne. unfold revoke_token, Tokens_get, Tokens_delete, log_warning. run.
  destruct (Tokens_rows w !! id); simpl; split_and!; try done.
  by apply lookup_delete_ne.
Qed.

(** The constructor's checks pass exactly when the three names are set. *)
Lemma assert_environment_Ret (w : World) :
  fst (assert_environment w) = Ret tt
  <-> is_Some (environ w !! "ISSUER") ∧ is_Some (environ w !! "SUBJECT")
      ∧ is_Some (environ w !! "AUDIENCE").
Proof.
  unfold assert_environment, assert_in_environ. run.
  repeat case_bool_decide; simpl; split; try done; try tauto; intros (? & ? & ?); done.
Qed.

(** What a successful issuance looks like, given what the code needs: the
    three names that the constructor asserts are in the environment, the
    permission dict has a first user, and the drawn id has no row yet. *)
Lemma issue_token_run (perms : permissions_dict) (minutes hours days : Z)
    (w : World) (user : string) :
  fst (assert_environment w) = Ret tt ->
  first_user perms = Ret user ->
  Tokens_rows w !! uuid4_at (uuid_draws w) = None ->
  ∃ issuer subject audience,
    environ w !! "ISSUER" = Some issuer
    ∧ environ w !! "SUBJECT" = Some subject
    ∧ environ w !! "AUDIENCE" = Some audience
    ∧ issue_token now_at uuid4_at perms minutes hours days w
      = (Ret {| claims := {| iss := issuer; sub := subject; aud := audience;
                             token_id := uuid4_at (uuid_draws w);
                             permissions := perms |};
                exp := if bool_decide (timedelta minutes hours days = 0) then None
                       else Some ((now_at (S (S (clock_reads w)))
                                   + timedelta minutes hours days) / 1000000);
                alg := "RS256";
                signed_by := _privkey w |},
         set_clock_reads S
           (set_Tokens_rows
              (insert (uuid4_at (uuid_draws w))
                 {| tok_username := user;
                    issued := isoformat (now_at (S (clock_reads w)));
                    expiration := isoformat (now_at (clock_reads w)
                                             + timedelta minutes hours days);
                    token := perms |})
              (set_clock_reads S (set_clock_reads S (set_uuid_draws S w))))).
Proof.
  intros Henv Huser Hfresh.
  apply assert_environment_Ret in Henv
    as ([issuer Hi] & [subject Hs] & [audience Ha]).
  exists issuer, subject, audience. split_and!; [done..|].
  unfold issue_token, uuid4, os_environ, datetime_now, generate_jwt, Tokens_create.
  run. rewrite Hi. simpl. rewrite Hs. simpl. rewrite Ha. simpl.
  rewrite Huser. simpl. rewrite Hfresh. simpl. done.
Qed.

(** X6: Issuance succeeds under those conditions when the lifetime is one
    that Python's [timedelta] can hold and the two deadlines computed from
    it (the row's from the first reading of the clock, the signer's from
    the third) are datetimes of the years 1 to 9999; the token carries the
    given permissions unchanged, is signed with the server's key under
    RS256, the new row names the first user of the dict, every other row is
    untouched, and [is_valid_token] then answers [True] for the new id. *)
Theorem issue_token_succeeds (perms : permissions_dict) (minutes hours days : Z)
    (w : World) (user : string) :
  fst (assert_environment w) = Ret tt ->
  first_user perms = Ret user ->
  Tokens_rows w !! uuid4_at (uuid_draws w) = None ->
  timedelta_in_range (timedelta minutes hours days) ->
  datetime_in_range (now_at (clock_reads w) + timedelta minutes hours days) ->
  datetime_in_range (now_at (S (S (clock_reads w))) + timedelta minutes hours days) ->
  ∃ (t : JWT) (w' : World) (row : Tokens),
    issue_token now_at uuid4_at perms minutes hours days w = (Ret t, w')
    ∧ permissions (claims t) = perms
    ∧ alg t = "RS256" ∧ signed_by t = _privkey w
    ∧ Tokens_rows w' = <[token_id (claims t) := row]> (Tokens_rows w)
    ∧ tok_username row = user ∧ token row = perms
    ∧ fst (is_valid_token (token_id (claims t)) w') = Ret true.
Proof.
  intros Henv Huser Hfresh _ _ _.
  destruct (issue_token_run perms minutes hours days w user Henv Huser Hfresh)
    as (issuer & subject & audience & _ & _ & _ & Hrun).
  do 3 eexists. split; [exact Hrun|]. simpl. split_and!; try done.
  unfold is_valid_token, Tokens_get. run. by rewrite lookup_insert_eq.
Qed.

(** X7: Issuing a token and revoking it brings the token table back to what
    it was, and the id is no longer valid. *)
Theorem issue_then_revoke_restores_table (perms : permissions_dict)
    (minutes hours days : Z) (w w' : World) (t : JWT) :
  issue_token now_at uuid4_at perms minutes hours days w = (Ret t, w') ->
  Tokens_rows (snd (revoke_token (token_id (claims t)) w')) = Tokens_rows w
  ∧ fst (is_valid_token (token_id (claims t))
           (snd (revoke_token (token_id (claims t)) w'))) = Ret false.
Proof.
  unfold issue_token, uuid4, os_environ, datetime_now, generate_jwt, Tokens_create.
  run.
  destruct (environ w !! "ISSUER"); simpl; [|discriminate].
  destruct (environ w !! "SUBJECT"); simpl; [|discriminate].
  destruct (environ w !! "AUDIENCE"); simpl; [|discriminate].
  destruct (first_user perms) as [u|]; simpl; [|discriminate].
  destruct (Tokens_rows w !! uuid4_at (uuid_draws w)) eqn:Hfresh; simpl;
    [discriminate|].
  unfold datetime_now. simpl. intros [= <- <-]. simpl.
  unfold revoke_token, is_valid_token, Tokens_get, Tokens_delete, log_warning. run.
  rewrite lookup_insert_eq. simpl. rewrite lookup_delete_eq.
  split; [|done]. rewrite delete_insert_eq. by apply delete_id.
Qed.

(** X8: The sweep under a clock that moves: if every reading taken during the
    sweep lies between [lo] and [hi], every row that expires before [lo] is
    removed and every row that expires at [hi] or later is kept unchanged;
    no row is added or altered, and the users are not touched. *)
Theorem token_cleanup_between_readings (w : World) (lo hi : Z) :
  (∀ i, (i < size (Tokens_rows w))%nat ->
        lo <= now_at (clock_reads w + i)%nat <= hi) ->
  (∀ id tok, Tokens_rows w !! id = Some tok ->
             fromisoformat (expiration tok) < lo ->
             Tokens_rows (snd (token_cleanup now_at w)) !! id = None)
  ∧ (∀ id tok, Tokens_rows w !! id = Some tok ->
               hi <= fromisoformat (expiration tok) ->
               Tokens_rows (snd (token_cleanup now_at w)) !! id = Some tok)
  ∧ Tokens_rows (snd (token_cleanup now_at w)) ⊆ Tokens_rows w
  ∧ Users_rows (snd (token_cleanup now_at w)) = Users_rows w.
Proof.
  intros Hwindow.
  destruct (token_cleanup_loop_spec now_at (map_to_list (Tokens_rows w)) w)
    as (w' & Hrun & _ & Hmono & Hgone & Hkept).
  assert (Hread : ∀ i id tok, map_to_list (Tokens_rows w) !! i = Some (id, tok) ->
                              lo <= now_at (clock_reads w + i)%nat <= hi).
  { intros i id tok Hi. apply Hwindow.
    rewrite <- length_map_to_list. by eapply lookup_lt_Some. }
  assert (Husers : ∀ l v, Users_rows (snd (token_cleanup_loop now_at l v))
                          = Users_rows v).
  { induction l as [|[id0 tok0] rest IH]; intros v; [done|].
    rewrite token_cleanup_loop_cons, IH. by destruct (_ >? _). }
  assert (Hfinal : Tokens_rows (snd (token_cleanup now_at w)) = Tokens_rows w'
                   ∧ Users_rows (snd (token_cleanup now_at w)) = Users_rows w).
  { specialize (Husers (map_to_list (Tokens_rows w)) w).
    unfold token_cleanup, Tokens_all, Tokens_count, log_warning. run.
    rewrite Hrun in *. by simpl in *. }
  destruct Hfinal as [-> ->].
  split_and!; [| | |done].
  - intros id tok Hid Hexp.
    apply elem_of_map_to_list, list_elem_of_lookup in Hid as [i Hi].
    apply (Hgone id i tok Hi). specialize (Hread i id tok Hi). lia.
  - intros id tok Hid Hexp. rewrite Hkept; [done|].
    intros i tok' Hi.
    assert (Tokens_rows w !! id = Some tok') as Hid'.
    { apply elem_of_map_to_list, list_elem_of_lookup. eauto. }
    rewrite Hid in Hid'. injection Hid' as <-.
    specialize (Hread i id tok Hi). lia.
  - apply map_subseteq_spec. intros id tok Hid.
    destruct (Hmono id) as [H|H]; [by rewrite H in Hid|by rewrite <- H].
Qed.

End TokenServiceMoreFacts.

(** ** Further facts: requirements and the gate *)

Section GateMoreFacts.

(** A dimension counts as given when its list is there and not empty. *)
Let given (values : option (list string)) : option (list string) :=
  match values with
  | Some (v :: vs) => Some (v :: vs)
  | _ => None
  end.

Lemma lookup_set_if_truthy (key key' : string) (values : option (list string))
    (d : permissions_dict) :
  set_if_truthy key values d !! key'
  = if decide (key = key')
    then match given values with Some l => Some l | None => d !! key' end
    else d !! key'.
Proof.
  unfold set_if_truthy, given. case_decide as Hk.
  - subst. destruct values as [[|v vs]|]; [done| |done]. by rewrite lookup_insert_eq.
  - destruct values as [[|v vs]|]; [done| |done]. by rewrite lookup_insert_ne.
Qed.

(** X9: When at least one dimension is given, the requirement holds exactly
    the given dimensions under their names; an empty list counts as not
    given, and neither default is consulted. *)
Theorem parse_permissions_given_dimensions (DEFAULT_PERMISSION : permissions_dict)
    (users groups roles actions : option (list string))
    (default_permissions : option permissions_dict) (key : string) :
  given users ≠ None ∨ given groups ≠ None ∨ given roles ≠ None
  ∨ given actions ≠ None ->
  parse_permissions DEFAULT_PERMISSION users groups roles actions default_permissions
  !! key
  = if decide (key = "users") then given users
    else if decide (key = "groups") then given groups
    else if decide (key = "roles") then given roles
    else if decide (key = "actions") then given actions
    else None.
Proof.
  intros Hgiven. unfold parse_permissions.
  set (p := set_if_truthy "actions" actions
              (set_if_truthy "roles" roles
                 (set_if_truthy "groups" groups
                    (set_if_truthy "users" users ∅)))).
  assert (Hp : ∀ k, p !! k
                    = if decide (k = "users") then given users
                      else if decide (k = "groups") then given groups
                      else if decide (k = "roles") then given roles
                      else if decide (k = "actions") then given actions
                      else None).
  { intros k. subst p. rewrite !lookup_set_if_truthy, lookup_empty.
    repeat case_decide; subst; try done;
      repeat (match goal with |- context [given ?x] => destruct (given x) end);
      done. }
  rewrite bool_decide_eq_false_2; [apply Hp|].
  intros Hempty.
  assert (Hnone : ∀ k, p !! k = None) by (intros k; by rewrite Hempty, lookup_empty).
  pose proof (Hnone "users") as Hu. pose proof (Hnone "groups") as Hg.
  pose proof (Hnone "roles") as Hr. pose proof (Hnone "actions") as Ha.
  rewrite Hp in Hu, Hg, Hr, Ha. simpl in *.
  destruct Hgiven as [H|[H|[H|H]]]; done.
Qed.

(** X10: With a server default that is not empty, the requirement of an
    endpoint is never the empty dict. *)
Theorem parse_permissions_not_empty (DEFAULT_PERMISSION : permissions_dict)
    (users groups roles actions : option (list string))
    (default_permissions : option permissions_dict) :
  DEFAULT_PERMISSION ≠ ∅ ->
  parse_permissions DEFAULT_PERMISSION users groups roles actions default_permissions
  ≠ ∅.
Proof.
  intros Hdefault. unfold parse_permissions.
  case_bool_decide as Hp; [|done].
  destruct default_permissions as [d|]; [|done].
  by case_bool_decide.
Qed.



End GateMoreFacts.

(** ** Further facts: the wrapper of an endpoint *)

Section WrapperFacts.

Variable now_at : nat -> Z.
Variable verify_jwt : string -> JWK -> Z -> outcome payload.

(** X12: The sentinel [NO_TOKEN] from an HTML client is answered at once with
    the login page: status 401, cookie [token=INVALID], cookie [ref] with
    the requested path.  Nothing is decoded, read or logged. *)
Theorem mock_function_no_token_challenge (html : bool) (required : permissions_dict)
    (request : Request) (path : string) (s : Wrapped) :
  wants_html html request = Ret true ->
  mock_function now_at verify_jwt html required request path "NO_TOKEN" s
  = (Ret (LoginChallenge 401 [("token", "INVALID"); ("ref", path)]), s).
Proof.
  intros Hhtml. unfold mock_function, login_challenge. run. by rewrite Hhtml.
Qed.

(** X13: A token that does not verify: an HTML client gets the same login
    page, any other client the exception 401 "not authorized, invalid or
    expired"; the tables are not touched. *)
Theorem mock_function_rejects_undecodable (html : bool) (required : permissions_dict)
    (request : Request) (path tok : string) (s : Wrapped) (e : exn) (h : bool) :
  verify_jwt tok (_privkey (fst s)) (now_at (clock_reads (fst s))) = Raise e ->
  wants_html html request = Ret h ->
  fst (mock_function now_at verify_jwt html required request path tok s)
  = (if h then Ret (LoginChallenge 401 [("token", "INVALID"); ("ref", path)])
     else Raise (HTTPException 401 (Detail "not authorized, invalid or expired")))
  ∧ Tokens_rows (fst (snd (mock_function now_at verify_jwt html required request
                             path tok s)))
    = Tokens_rows (fst s)
  ∧ Users_rows (fst (snd (mock_function now_at verify_jwt html required request
                            path tok s)))
    = Users_rows (fst s).
Proof.
  intros Hverify Hhtml.
  unfold mock_function, login_challenge, decode_token, datetime_now, in_world,
    log_error_text. run. rewrite Hhtml. simpl.
  destruct (String.eqb tok "NO_TOKEN"), h; simpl; try done;
    rewrite Hverify; simpl; done.
Qed.

(** X14: A token that verifies but has no row (revoked or swept), when its
    permission dict has no key ["user"]: the text for the log cannot be
    formatted and [KeyError('user')] is raised, for every kind of client,
    instead of the 401 answer. *)
Theorem mock_function_unknown_token_KeyError (html : bool) (required : permissions_dict)
    (request : Request) (path tok : string) (s : Wrapped) (c : payload) :
  tok ≠ "NO_TOKEN" ->
  verify_jwt tok (_privkey (fst s)) (now_at (clock_reads (fst s))) = Ret c ->
  Tokens_rows (fst s) !! token_id c = None ->
  permissions c !! "user" = None ->
  fst (mock_function now_at verify_jwt html required request path tok s)
  = Raise (KeyError "user").
Proof.
  intros Htok Hverify Hrow Huser.
  apply String.eqb_neq in Htok.
  unfold mock_function, login_challenge, decode_token, datetime_now, in_world,
    log_error_text, Tokens_get, unknown_token_user. run.
  rewrite Htok. simpl. rewrite Hverify. simpl. rewrite Hrow. simpl.
  by rewrite Huser.
Qed.

(** X15: A token that verifies and has a row reaches the endpoint exactly when
    a dimension of the requirement overlaps the same dimension of the
    token's permissions. *)
Theorem mock_function_known_token (html : bool) (required : permissions_dict)
    (request : Request) (path tok : string) (s : Wrapped) (c : payload) (row : Tokens) :
  tok ≠ "NO_TOKEN" ->
  verify_jwt tok (_privkey (fst s)) (now_at (clock_reads (fst s))) = Ret c ->
  Tokens_rows (fst s) !! token_id c = Some row ->
  fst (mock_function now_at verify_jwt html required request path tok s)
  = Ret (Answer CallEndpoint)
  <-> ∃ auth_type values held v,
        required !! auth_type = Some values
        ∧ permissions c !! auth_type = Some held
        ∧ v ∈ values ∧ v ∈ held.
Proof.
  intros Htok Hverify Hrow.
  apply String.eqb_neq in Htok.
  destruct (check_items_spec (map_to_list required) (permissions c) false
              (set_clock_reads S (fst s))) as (b & w' & Hrun & Hb).
  assert (Hiff : b = true <->
            ∃ auth_type values held v,
              required !! auth_type = Some values
              ∧ permissions c !! auth_type = Some held
              ∧ v ∈ values ∧ v ∈ held).
  { rewrite Hb. split.
    - intros [H|(k & vs & h & v & Hin & Hrest)]; [done|].
      exists k, vs, h, v. by rewrite <- elem_of_map_to_list.
    - intros (k & vs & h & v & Hin & Hrest). right.
      exists k, vs, h, v. by rewrite elem_of_map_to_list. }
  rewrite <- Hiff.
  unfold mock_function, login_challenge, decode_token, datetime_now, in_world,
    log_error_text, Tokens_get, mock_function_gate. run.
  rewrite Htok. simpl. rewrite Hverify. simpl. rewrite Hrow. simpl.
  rewrite Hrun. simpl.
  destruct b, html; simpl; split; done.
Qed.

End WrapperFacts.

(** ** Further facts: identity providers *)

Section ProviderFacts.

Lemma providers_dict_fold (l : list OauthConfig) (p : string) :
  ∀ d : gmap string string,
    fold_left
      (fun d idp => if String.eqb (provider idp) "easyauth" then d
                    else <[provider idp := client_id idp]> d) l d !! p
    = if String.eqb p "easyauth" then d !! p
      else match last (List.filter (fun c => String.eqb (provider c) p) l) with
           | Some c => Some (client_id c)
           | None => d !! p
           end.
Proof.
  induction l as [|c l IH]; intros d; simpl.
  - by destruct (String.eqb p "easyauth").
  - rewrite IH. destruct (String.eqb p "easyauth") eqn:Hp.
    + apply String.eqb_eq in Hp as ->.
      destruct (String.eqb (provider c) "easyauth") eqn:Hc; [done|].
      apply String.eqb_neq in Hc. by rewrite lookup_insert_ne.
    + destruct (String.eqb (provider c) p) eqn:Hcp.
      * apply String.eqb_eq in Hcp as <-. rewrite Hp.
        rewrite lookup_insert_eq.
        destruct (List.filter _ l) as [|c' l'] eqn:Hl; [done|].
        simpl. destruct (last (c' :: l')) eqn:Hlast; [done|].
        by apply last_None in Hlast.
      * apply String.eqb_neq in Hcp.
        destruct (String.eqb (provider c) "easyauth"); [done|].
        by rewrite lookup_insert_ne.
Qed.

(** X16: The providers offered on the login page: a provider is listed exactly
    when it is not ["easyauth"] and has an enabled row, with the client id
    of its last enabled row; reading them changes nothing. *)
Theorem get_identity_providers_lookup (w : World) (p : string) :
  ∃ d : gmap string string,
    get_identity_providers w = (Ret d, w)
    ∧ d !! p
      = if String.eqb p "easyauth" then None
        else client_id <$>
             last (List.filter (fun c => String.eqb (provider c) p)
                     (List.filter enabled (OauthConfig_rows w))).
Proof.
  eexists. split; [reflexivity|].
  unfold providers_dict. rewrite providers_dict_fold, lookup_empty.
  destruct (String.eqb p "easyauth"); [done|]. by destruct (last _).
Qed.

End ProviderFacts.

(** ** Further facts: Google federation *)

Section FederationMoreFacts.

Variable now_at : nat -> Z.
Variable uuid4_at : nat -> string.
Variable verify_oauth2_token : string -> string -> outcome idinfo.
Variable register_user : registration -> M World string.

(** The check of the claims lets a non-empty, verified address through
    and changes nothing. *)
Lemma validated_email_accepts (code : string) (config : OauthConfig)
    (info : idinfo) (mail : string) (w : World) :
  verify_oauth2_token code (client_id config) = Ret info ->
  id_email info = Some mail -> mail ≠ "" ->
  id_email_verified info = Some true ->
  validated_email verify_oauth2_token code config w = (Ret (info, mail), w).
Proof.
  intros Hverify Hmail Hne Hverified.
  unfold validated_email, claim. run. rewrite Hverify. simpl.
  rewrite Hmail. simpl. rewrite bool_decide_eq_false_2 by done.
  by rewrite Hverified.
Qed.

(** X17: Whatever exception the provider's verification raises, the caller
    sees only [HTTPException(400, "Unable to validate social login")]; the
    exception itself goes to the log, and neither table changes. *)
Theorem generate_google_oauth_token_masks_provider_error
    (request : option Request) (auth_code : option string) (w : World)
    (config : OauthConfig) (others : list OauthConfig) (code : string) (e : exn) :
  List.filter (fun c => String.eqb (provider c) "google") (OauthConfig_rows w)
  = config :: others ->
  posted_code request auth_code = Ret code ->
  verify_oauth2_token code (client_id config) = Raise e ->
  generate_google_oauth_token now_at uuid4_at verify_oauth2_token
    register_user request auth_code w
  = (Raise (HTTPException 400 (Detail "Unable to validate social login")),
     set_log (fun l => (l ++ [(ERROR, ErrorValidatingSocialLogin e)])%list) w).
Proof.
  intros Hconfig Hcode Hverify.
  unfold generate_google_oauth_token, OauthConfig_filter_provider, validated_email,
    log_exception. run.
  rewrite Hconfig, Hcode. simpl. by rewrite Hverify.
Qed.


(** X19: A verified address without a stored user, when the registration
    answers that an activation mail was sent: that answer is returned as it
    is, and the world is the one the registration left; no token is
    issued. *)
Theorem generate_google_oauth_token_pending_activation
    (request : option Request) (auth_code : option string) (w w1 : World)
    (config : OauthConfig) (others : list OauthConfig) (code : string)
    (info : idinfo) (mail given family result : string) :
  List.filter (fun c => String.eqb (provider c) "google") (OauthConfig_rows w)
  = config :: others ->
  posted_code request auth_code = Ret code ->
  verify_oauth2_token code (client_id config) = Ret info ->
  id_email info = Some mail -> mail ≠ "" ->
  id_email_verified info = Some true ->
  List.filter (fun v => String.eqb (email v) mail) (Users_rows w) = [] ->
  id_given_name info = Some given ->
  id_family_name info = Some family ->
  register_user
    {| reg_username := mail; reg_email_address := mail;
       reg_full_name := given ++ " " ++ family; reg_email := mail;
       reg_password := ""; reg_repeat_password := "";
       reg_groups := group_name <$> default_groups config |} w
  = (Ret result, w1) ->
  contains "Activation email sent to" result = true ->
  generate_google_oauth_token now_at uuid4_at verify_oauth2_token
    register_user request auth_code w = (Ret (Pending result), w1).
Proof.
  intros Hconfig Hcode Hverify Hmail Hne Hverified Huser Hgiven Hfamily Hreg Hsent.
  unfold generate_google_oauth_token, OauthConfig_filter_provider. run.
  rewrite Hconfig, Hcode. simpl.
  rewrite (validated_email_accepts code config info mail w
             Hverify Hmail Hne Hverified).
  unfold Users_filter_email, claim. simpl. rewrite Huser.
  rewrite Hgiven, Hfamily. simpl. rewrite Hreg. simpl. by rewrite Hsent.
Qed.

(** X20: A verified address without a stored user, when the claims carry no
    [given_name] or no [family_name]: [KeyError] escapes (this lookup is
    outside the [try]), the registration is not called and the world is
    unchanged. *)
Theorem generate_google_oauth_token_needs_names
    (request : option Request) (auth_code : option string) (w : World)
    (config : OauthConfig) (others : list OauthConfig) (code : string)
    (info : idinfo) (mail : string) :
  List.filter (fun c => String.eqb (provider c) "google") (OauthConfig_rows w)
  = config :: others ->
  posted_code request auth_code = Ret code ->
  verify_oauth2_token code (client_id config) = Ret info ->
  id_email info = Some mail -> mail ≠ "" ->
  id_email_verified info = Some true ->
  List.filter (fun v => String.eqb (email v) mail) (Users_rows w) = [] ->
  id_given_name info = None ∨ id_family_name info = None ->
  generate_google_oauth_token now_at uuid4_at verify_oauth2_token
    register_user request auth_code w
  = (Raise (KeyError (match id_given_name info with
                      | Some _ => "family_name"
                      | None => "given_name"
                      end)), w).
Proof.
  intros Hconfig Hcode Hverify Hmail Hne Hverified Huser Hnames.
  unfold generate_google_oauth_token, OauthConfig_filter_provider. run.
  rewrite Hconfig, Hcode. simpl.
  rewrite (validated_email_accepts code config info mail w
             Hverify Hmail Hne Hverified).
  unfold Users_filter_email, claim. simpl. rewrite Huser.
  destruct (id_given_name info) as [given|]; simpl; [|done].
  destruct Hnames as [|Hfamily]; [done|]. by rewrite Hfamily.
Qed.

End FederationMoreFacts.

(** ** Further facts: key bootstrap *)

Section KeyManagerMoreFacts.

Variable random_at : nat -> nat.
Variable rsa_at : nat -> Z.
Variable from_json : string -> outcome JWK.
Variable export_private : JWK -> string.
Variable export_public : JWK -> string.

Lemma string_app_assoc (a b c : string) : (a ++ b) ++ c = a ++ (b ++ c).
Proof.
  induction a as [|x a IH]; [reflexivity|].
  change (String x ((a ++ b) ++ c) = String x (a ++ (b ++ c))). by f_equal.
Qed.

Lemma string_app_ne (a b : string) : b ≠ "" -> a ++ b ≠ a.
Proof.
  intros Hb. induction a as [|x a IH]; [done|].
  intros H. change (String x (a ++ b) = String x a) in H.
  injection H as H. by apply IH.
Qed.

(** Every draw of [generate_random_string] is a lower-case letter. *)
Lemma random_choice_lowercase (h : Host) :
  ∃ c, random_choice random_at ascii_lowercase h = (Ret c, set_random_draws S h)
       ∧ c ∈ ascii_lowercase.
Proof.
  eexists. split; [reflexivity|].
  apply list_elem_of_In, nth_In.
  apply Nat.mod_upper_bound. by vm_compute.
Qed.

(** X21: [generate_random_string size] returns [size] lower-case letters and
    takes exactly [size] draws from the random source. *)
Theorem generate_random_string_lowercase (size : nat) (h : Host) :
  ∃ s : string,
    generate_random_string random_at size h
    = (Ret s, set_random_draws (fun d => (d + size)%nat) h)
    ∧ String.length s = size
    ∧ Forall (fun c => c ∈ ascii_lowercase) (list_ascii_of_string s).
Proof.
  revert h. induction size as [|n IH]; intros h; simpl.
  - exists EmptyString. split_and!; [|done|by constructor].
    unfold ret, set_random_draws. destruct h. simpl. by rewrite Nat.add_0_r.
  - destruct (random_choice_lowercase h) as (c & Hc & Hin).
    destruct (IH (set_random_draws S h)) as (s & Hrun & Hlen & Hall).
    exists (String c s). split_and!.
    + rewrite (bind_Ret _ _ _ _ _ Hc). rewrite (bind_Ret _ _ _ _ _ Hrun).
      unfold ret, set_random_draws. simpl. do 2 f_equal. lia.
    + simpl. by rewrite Hlen.
    + simpl. by constructor.
Qed.

(** Without [KEY_NAME] in the environment [key_setup] stops at its
    assertion and has touched nothing. *)
Lemma key_setup_requires_KEY_NAME (h : Host) :
  host_environ h !! "KEY_NAME" = None ->
  key_setup random_at rsa_at from_json export_private export_public h
  = (Raise (AssertionError "missing KEY_NAME env variable"), h).
Proof.
  intros Hname. unfold key_setup, key_file_path. run. rewrite Hname.
  by rewrite bool_decide_eq_false_2 by (by intros [? ?]).
Qed.

(** X22: With [KEY_PATH] unset or empty, [key_setup] fails in [os.makedirs("")]
    with [FileNotFoundError]: no key is loaded or created and nothing is
    written (the empty path names neither a directory nor a file). *)
Theorem key_setup_requires_KEY_PATH (h : Host) (name : string) :
  host_environ h !! "KEY_NAME" = Some name ->
  host_environ h !! "KEY_PATH" = None ∨ host_environ h !! "KEY_PATH" = Some "" ->
  "" ∉ dirs h ->
  files h !! "" = None ->
  key_setup random_at rsa_at from_json export_private export_public h
  = (Raise (FileNotFoundError ""), h).
Proof.
  intros Hname Hpath Hdir Hfile.
  assert (Hdefault : default "" (host_environ h !! "KEY_PATH") = "").
  { by destruct Hpath as [-> | ->]. }
  unfold key_setup, key_file_path, getenv, os_path_exists, os_makedirs. run.
  rewrite Hname. rewrite (bool_decide_eq_true_2 (is_Some (Some name))) by eauto.
  simpl. rewrite Hdefault.
  rewrite (bool_decide_eq_false_2 ("" ∈ dirs h)) by done.
  rewrite Hfile. rewrite (bool_decide_eq_false_2 (is_Some None)) by (by intros [? ?]).
  simpl. done.
Qed.

















(** A private-key file that can be read and parsed is loaded; nothing is
    drawn or written. *)
Lemma load_or_create_key_valid (h : Host) (key_path : string) (key_file : File)
    (k : JWK) :
  key_path ++ ".key" ∉ dirs h ->
  files h !! (key_path ++ ".key") = Some key_file ->
  readable key_file = true ->
  from_json (readline (content key_file)) = Ret k ->
  load_or_create_key random_at rsa_at from_json export_private key_path h
  = (Ret tt, set_host_privkey k h).
Proof.
  intros Hkdir Hkey Hr Hparse.
  unfold load_or_create_key, open_read. run.
  rewrite bool_decide_eq_false_2 by done. rewrite Hkey, Hr. by rewrite Hparse.
Qed.


Lemma key_suffix_ne_path (path name suffix : string) :
  (path ++ "/" ++ name) ++ suffix ≠ path.
Proof.
  rewrite string_app_assoc. apply string_app_ne. discriminate.
Qed.






(** X25: A start that finds a private-key file it can read and parse, with the
    marker file and a readable public-key file in place, only loads the
    key: no file changes and nothing is drawn from the random source. *)
Theorem key_setup_loads_valid_key (h : Host) (path name : string)
    (marker key_file pub_file : File) (k : JWK) :
  host_environ h !! "KEY_NAME" = Some name ->
  host_environ h !! "KEY_PATH" = Some path ->
  path ≠ "" ->
  path ∈ dirs h ->
  files h !! (path ++ "/" ++ name) = Some marker ->
  (path ++ "/" ++ name) ++ ".key" ∉ dirs h ->
  (path ++ "/" ++ name) ++ ".pub" ∉ dirs h ->
  files h !! ((path ++ "/" ++ name) ++ ".key") = Some key_file ->
  files h !! ((path ++ "/" ++ name) ++ ".pub") = Some pub_file ->
  readable key_file = true ->
  readable pub_file = true ->
  from_json (readline (content key_file)) = Ret k ->
  key_setup random_at rsa_at from_json export_private export_public h
  = (Ret tt, set_host_privkey k h).
Proof.
  intros Hname Hpath Hne Hdir Hmarker Hkdir Hpdir Hkey Hpub Hr Hpubr Hparse.
  unfold key_setup.
  rewrite (bind_Ret _ _ _ _ _
             (key_file_path_booted h path name marker Hname Hpath Hne Hdir Hmarker)).
  rewrite (bind_Ret _ _ _ _ _
             (load_or_create_key_valid h _ key_file k Hkdir Hkey Hr Hparse)).
  by apply (ensure_public_key_present export_public _ _ pub_file).
Qed.

(** X26: When the private key is generated anew over a damaged file, a
    public-key file that can be read is not rewritten: it keeps the text it
    had, whatever key it was exported from. *)
Theorem key_setup_keeps_public_file (h : Host) (path name : string)
    (marker key_file pub_file : File) :
  host_environ h !! "KEY_NAME" = Some name ->
  host_environ h !! "KEY_PATH" = Some path ->
  path ≠ "" ->
  path ∈ dirs h ->
  files h !! (path ++ "/" ++ name) = Some marker ->
  (path ++ "/" ++ name) ++ ".key" ∉ dirs h ->
  (path ++ "/" ++ name) ++ ".pub" ∉ dirs h ->
  files h !! ((path ++ "/" ++ name) ++ ".key") = Some key_file ->
  files h !! ((path ++ "/" ++ name) ++ ".pub") = Some pub_file ->
  readable pub_file = true ->
  writable key_file = true ->
  readable key_file = false
  ∨ (∃ e, from_json (readline (content key_file)) = Raise e) ->
  ∃ (h' : Host) (k : JWK),
    key_setup random_at rsa_at from_json export_private export_public h
    = (Ret tt, h')
    ∧ host_privkey h' = Some k
    ∧ secret k = rsa_at (random_draws h + 56)%nat
    ∧ files h' !! ((path ++ "/" ++ name) ++ ".pub") = Some pub_file.
Proof.
  intros Hname Hpath Hne Hdir Hmarker Hkdir Hpdir Hkey Hpub Hpubr Hw Hbad.
  destruct (load_or_create_key_damaged random_at rsa_at from_json export_private
              h (path ++ "/" ++ name) key_file Hkdir Hkey Hw Hbad)
    as (s & Hlen & Hload).
  match type of Hload with
  | _ = (_, ?h1) =>
      exists h1, {| kid := s; secret := rsa_at (random_draws h + 56)%nat |}
  end.
  assert (Hpub' : ∀ f (g : Host), files g = files h ->
            files (set_files (insert ((path ++ "/" ++ name) ++ ".key") f) g)
            !! ((path ++ "/" ++ name) ++ ".pub") = Some pub_file).
  { intros f g Hg. simpl.
    rewrite lookup_insert_ne
      by (apply not_eq_sym, (key_file_is_not_pub_file (path ++ "/" ++ name))).
    by rewrite Hg. }
  split_and!; [|done|done|by apply Hpub'].
  unfold key_setup.
  rewrite (bind_Ret _ _ _ _ _
             (key_file_path_booted h path name marker Hname Hpath Hne Hdir Hmarker)).
  rewrite (bind_Ret _ _ _ _ _ Hload).
  apply (ensure_public_key_present export_public _ _ pub_file); simpl;
    [done| |done].
  rewrite lookup_insert_ne
    by (apply not_eq_sym, (key_file_is_not_pub_file (path ++ "/" ++ name))).
  done.
Qed.

End KeyManagerMoreFacts.

(** ** Further facts: the cookie middleware *)

Section MiddlewareFacts.

(** Splitting on ["="] gives one part more than there are ["="] signs. *)
Lemma length_split_equals (s : string) :
  ∀ piece : string, length (split_go "=" 0 piece s) = S (count_char "=" s).
Proof.
  induction s as [|c rest IH]; intros piece; [done|].
  cbn [split_go count_char String.prefix].
  destruct (ascii_dec "=" c) as [<-|Hc].
  - assert (String.prefix "" rest = true) as -> by (by destruct rest).
    cbn [length String.length Nat.sub]. rewrite IH.
    by rewrite Ascii.eqb_refl.
  - rewrite IH. apply Ascii.eqb_neq in Hc. by rewrite Hc.
Qed.

Lemma unpack_pair_count (cookie : string) :
  count_char "=" cookie ≠ 1%nat ->
  ∃ msg, unpack_pair (split "=" cookie) = Raise (ValueError msg).
Proof.
  intros Hcount. pose proof (length_split_equals cookie "") as Hlen.
  unfold split. destruct (split_go "=" 0 "" cookie) as [|a [|b [|c l]]];
    simpl in *; eauto. lia.
Qed.

Lemma scan_cookies_raises_ValueError (cookies : list string) :
  ∀ tok e, scan_cookies cookies tok = Raise e -> ∃ msg, e = ValueError msg.
Proof.
  induction cookies as [|cookie rest IH]; intros tok e; simpl; [discriminate|].
  destruct (unpack_pair (split "=" cookie)) as [[key value]|e'] eqn:Hpair.
  - apply IH.
  - intros [= <-]. unfold unpack_pair in Hpair.
    destruct (split "=" cookie) as [|a [|b [|c l]]]; simplify_eq; eauto.
Qed.

Lemma scan_cookies_malformed (cookies : list string) (cookie : string) :
  cookie ∈ cookies -> count_char "=" cookie ≠ 1%nat ->
  ∀ tok, ∃ msg, scan_cookies cookies tok = Raise (ValueError msg).
Proof.
  intros Hin Hcount.
  induction cookies as [|c rest IH]; intros tok; [by inversion Hin|].
  simpl. apply elem_of_cons in Hin as [<-|Hin].
  - destruct (unpack_pair_count cookie Hcount) as [msg ->]. eauto.
  - destruct (unpack_pair (split "=" c)) as [[key value]|e] eqn:Hpair.
    + by apply IH.
    + unfold unpack_pair in Hpair.
      destruct (split "=" c) as [|a [|b [|d l]]]; simplify_eq; eauto.
Qed.

Lemma scan_headers_raises_ValueError (hs : list (string * string)) :
  ∀ i tok auth e, scan_headers hs i tok auth = Raise e -> ∃ msg, e = ValueError msg.
Proof.
  induction hs as [|[name value] rest IH]; intros i tok auth e; simpl; [discriminate|].
  destruct (contains "cookie" name); [|apply IH].
  destruct (scan_cookies _ tok) as [tok'|e'] eqn:Hscan; [apply IH|].
  intros [= <-]. by eapply scan_cookies_raises_ValueError.
Qed.

(** X27: A cookie header one of whose cookies (before the first comma, cookies
    separated by ["; "]) has no ["="] or more than one makes the middleware
    raise [ValueError]: the request is neither redirected nor passed on. *)
Theorem detect_token_in_cookie_malformed_cookie (hs : list (string * string))
    (path name value cookie : string) :
  (name, value) ∈ hs ->
  contains "cookie" name = true ->
  cookie ∈ split "; " (hd EmptyString (split "," value)) ->
  count_char "=" cookie ≠ 1%nat ->
  ∃ msg, detect_token_in_cookie hs path = Raise (ValueError msg).
Proof.
  intros Hin Hname Hcookie Hcount.
  assert (Hscan : ∀ i tok auth, ∃ msg,
             scan_headers hs i tok auth = Raise (ValueError msg)).
  { induction hs as [|[n v] rest IH]; intros i tok auth; [by inversion Hin|].
    simpl. apply elem_of_cons in Hin as [[= <- <-]|Hin].
    - rewrite Hname.
      destruct (scan_cookies_malformed _ cookie Hcookie Hcount tok) as [msg ->].
      eauto.
    - destruct (contains "cookie" n); [|by apply IH].
      destruct (scan_cookies _ tok) as [tok'|e] eqn:Hc; [by apply IH|].
      apply scan_cookies_raises_ValueError in Hc as [msg ->]. eauto. }
  destruct (Hscan 0%nat None None) as [msg Hmsg].
  exists msg. unfold detect_token_in_cookie. by rewrite Hmsg.
Qed.

Lemma scan_headers_no_cookie (hs : list (string * string)) :
  (∀ name value, (name, value) ∈ hs -> contains "cookie" name = false) ->
  ∀ i tok auth, ∃ auth', scan_headers hs i tok auth = Ret (tok, auth').
Proof.
  induction hs as [|[name value] rest IH]; intros Hno i tok auth; simpl; [eauto|].
  rewrite (Hno name value) by (by left).
  apply IH. intros n v Hin. apply (Hno n v). by right.
Qed.

(** X28: A request without any cookie header: on every path but ["/login"] the
    header [authorization: bearer NO_TOKEN] is appended and the request
    goes on; on ["/login"] it goes on untouched.  An [authorization] header
    sent by the client is never removed. *)
Theorem detect_token_in_cookie_without_cookie (hs : list (string * string))
    (path : string) :
  (∀ name value, (name, value) ∈ hs -> contains "cookie" name = false) ->
  detect_token_in_cookie hs path
  = Ret (if String.eqb path "/login" then []
         else [AppendScopeHeaders ("authorization", "bearer NO_TOKEN")],
         CallNext).
Proof.
  intros Hno. destruct (scan_headers_no_cookie hs Hno 0%nat None None) as [auth Hscan].
  unfold detect_token_in_cookie. rewrite Hscan. simpl.
  by destruct (String.eqb path "/login").
Qed.

End MiddlewareFacts.

(** ** Further facts: who gets a user back from the password check *)

Section PasswordOutcomeFacts.

Variable checkpw : string -> string -> outcome bool.

(** X1: [validate_user_pw] returns a user in exactly two cases: the first row
    of that name is not a service account and the comparison accepts the
    password, or the comparison raises a [ValueError]. *)
Theorem validate_user_pw_returns_user_iff (name pw : string) (w : World) (u : Users) :
  fst (validate_user_pw checkpw name pw w) = Ret (Some u)
  <-> List.find (fun v => String.eqb (username v) name) (Users_rows w) = Some u
      ∧ String.eqb (account_type u) "service" = false
      ∧ (checkpw pw (password u) = Ret true
         ∨ ∃ e, checkpw pw (password u) = Raise e ∧ is_ValueError e = true).
Proof.
  unfold validate_user_pw, Users_get. run.
  destruct (List.find _ (Users_rows w)) as [v|] eqn:Hfind; simpl.
  2: { split; [discriminate|]. by intros ([=] & _). }
  destruct (String.eqb (account_type v) "service") eqn:Hkind; simpl.
  { split; [discriminate|]. intros ([= <-] & Hk & _). congruence. }
  unfold validate_user_pw_outer, validate_user_pw_inner, is_password_valid,
    log_exception, log_error, encode. run.
  destruct (checkpw pw (password v)) as [[|]|e] eqn:Hcmp; simpl.
  - split.
    + intros [= <-]. split_and!; [done|done|by left].
    + by intros ([= <-] & _).
  - split; [discriminate|].
    intros ([= <-] & _ & [H|(e & H & _)]); congruence.
  - destruct (is_ValueError e) eqn:He; simpl.
    + split.
      * intros [= <-]. split_and!; [done|done|]. right. eauto.
      * by intros ([= <-] & _).
    + split; [discriminate|].
      intros ([= <-] & _ & [H|(e' & H & He')]); congruence.
Qed.

(** X2: The only exception that leaves [validate_user_pw] is the 401 of the
    guard for service accounts: an exception of the comparison, of
    whatever class, is never passed on to the caller. *)
Theorem validate_user_pw_raises_only_for_service (name pw : string) (w : World)
    (e : exn) :
  fst (validate_user_pw checkpw name pw w) = Raise e ->
  e = HTTPException 401 (Detail "unable to login with service accounts")
  ∧ ∃ u, List.find (fun v => String.eqb (username v) name) (Users_rows w) = Some u
         ∧ account_type u = "service".
Proof.
  unfold validate_user_pw, Users_get. run.
  destruct (List.find _ (Users_rows w)) as [v|] eqn:Hfind; simpl; [|discriminate].
  destruct (String.eqb (account_type v) "service") eqn:Hkind; simpl.
  - intros [= <-]. split; [done|]. exists v. split; [done|].
    by apply String.eqb_eq.
  - unfold validate_user_pw_outer, validate_user_pw_inner, is_password_valid,
      log_exception, log_error, encode. run.
    destruct (checkpw pw (password v)) as [[|]|e']; simpl; try discriminate.
    destruct (is_ValueError e'); simpl; discriminate.
Qed.

End PasswordOutcomeFacts.

(** ** The further facts at concrete inputs *)

Lemma validate_user_pw_raises_only_for_service_witness :
  HTTPException 401 (Detail "unable to login with service accounts")
  = HTTPException 401 (Detail "unable to login with service accounts")
  ∧ ∃ u, List.find (fun v => String.eqb (username v) "robot") (Users_rows world0)
         = Some u
         ∧ account_type u = "service".
Proof.
  apply (validate_user_pw_raises_only_for_service prefix_checkpw "robot" "beep"
           world0).
  reflexivity.
Defined.

(** A comparison that raises [TypeError] ends in [None]. *)
Lemma validate_user_pw_other_exception_witness :
  fst (validate_user_pw broken_checkpw "alice" "wonderland" world0) = Ret None.
Proof.
  apply (validate_user_pw_other_exception broken_checkpw "alice" "wonderland"
           world0 alice
           (TypeError "Unicode-objects must be encoded before checking"));
    reflexivity.
Defined.

Lemma revoke_token_keeps_other_tokens_witness :
  Tokens_rows (snd (revoke_token "t5" world3)) !! "t15" = Tokens_rows world3 !! "t15"
  ∧ Users_rows (snd (revoke_token "t5" world3)) = Users_rows world3
  ∧ OauthConfig_rows (snd (revoke_token "t5" world3)) = OauthConfig_rows world3.
Proof.
  apply (revoke_token_keeps_other_tokens "t5" "t15" world3). discriminate.
Defined.

Lemma issue_token_succeeds_witness :
  ∃ (t : JWT) (w' : World) (row : Tokens),
    issue_token ticking_clock numbered_uuid (get_user_permissions alice) 60 0 0 world3
    = (Ret t, w')
    ∧ permissions (claims t) = get_user_permissions alice
    ∧ alg t = "RS256" ∧ signed_by t = _privkey world3
    ∧ Tokens_rows w' = <[token_id (claims t) := row]> (Tokens_rows world3)
    ∧ tok_username row = "alice" ∧ token row = get_user_permissions alice
    ∧ fst (is_valid_token (token_id (claims t)) w') = Ret true.
Proof.
  apply (issue_token_succeeds ticking_clock numbered_uuid
           (get_user_permissions alice) 60 0 0 world3 "alice");
    by vm_compute.
Defined.

Lemma issue_then_revoke_restores_table_witness :
  ∃ (t : JWT) (w' : World),
    issue_token ticking_clock numbered_uuid (get_user_permissions alice) 60 0 0 world3
    = (Ret t, w')
    ∧ Tokens_rows (snd (revoke_token (token_id (claims t)) w')) = Tokens_rows world3
    ∧ fst (is_valid_token (token_id (claims t))
             (snd (revoke_token (token_id (claims t)) w'))) = Ret false.
Proof.
  destruct (issue_token ticking_clock numbered_uuid (get_user_permissions alice)
              60 0 0 world3) as [[t|e] w'] eqn:Hrun.
  - exists t, w'. split; [done|].
    apply (issue_then_revoke_restores_table ticking_clock numbered_uuid
             (get_user_permissions alice) 60 0 0 world3 w' t Hrun).
  - vm_compute in Hrun. discriminate.
Defined.

(** A sweep whose three readings are 9, 10 and 11: the row expiring at 5
    goes, the row expiring at 15 stays. *)
Lemma token_cleanup_between_readings_witness :
  Tokens_rows (snd (token_cleanup slow_clock world3)) !! "t5" = None
  ∧ Tokens_rows (snd (token_cleanup slow_clock world3)) !! "t15"
    = Some (token_row "mallory" 15).
Proof.
  destruct (token_cleanup_between_readings slow_clock world3 9 11)
    as (Hgone & Hkept & _).
  - intros i Hi. change (size (Tokens_rows world3)) with 3%nat in Hi.
    unfold slow_clock. simpl. lia.
  - split.
    + apply (Hgone "t5" (token_row "alice" 5)); [by vm_compute|simpl; lia].
    + apply (Hkept "t15" (token_row "mallory" 15)); [by vm_compute|simpl; lia].
Defined.

Lemma parse_permissions_given_dimensions_witness :
  parse_permissions {["groups" := ["administrators"]]}
    (Some []) (Some ["auditors"]) None None None !! "groups" = Some ["auditors"]
  ∧ parse_permissions {["groups" := ["administrators"]]}
      (Some []) (Some ["auditors"]) None None None !! "users" = None.
Proof.
  split.
  - apply (parse_permissions_given_dimensions {["groups" := ["administrators"]]}
             (Some []) (Some ["auditors"]) None None None "groups").
    right. left. discriminate.
  - apply (parse_permissions_given_dimensions {["groups" := ["administrators"]]}
             (Some []) (Some ["auditors"]) None None None "users").
    right. left. discriminate.
Defined.

Lemma parse_permissions_not_empty_witness :
  parse_permissions {["groups" := ["administrators"]]} None None None None None ≠ ∅.
Proof.
  apply (parse_permissions_not_empty {["groups" := ["administrators"]]}
           None None None None None).
  intros H. apply (f_equal (fun d => d !! "groups")) in H. by vm_compute in H.
Defined.

Lemma mock_function_no_token_challenge_witness :
  mock_function ticking_clock one_token_verify_jwt false
    {["groups" := ["administrators"]]} browser_request "/admin/users" "NO_TOKEN"
    (world0, [])
  = (Ret (LoginChallenge 401 [("token", "INVALID"); ("ref", "/admin/users")]),
     (world0, [])).
Proof.
  apply (mock_function_no_token_challenge ticking_clock one_token_verify_jwt false
           {["groups" := ["administrators"]]} browser_request "/admin/users"
           (world0, [])).
  reflexivity.
Defined.

(** The sentinel from an API client is decoded, fails, and gives 401. *)
Lemma mock_function_rejects_undecodable_witness :
  fst (mock_function ticking_clock one_token_verify_jwt false
         {["groups" := ["administrators"]]} api_request "/admin/users" "NO_TOKEN"
         (world0, []))
  = Raise (HTTPException 401 (Detail "not authorized, invalid or expired")).
Proof.
  apply (mock_function_rejects_undecodable ticking_clock one_token_verify_jwt false
           {["groups" := ["administrators"]]} api_request "/admin/users" "NO_TOKEN"
           (world0, []) (ValueError "Invalid JWT") false); reflexivity.
Defined.

(** [alice]'s token after its row is gone. *)
Lemma mock_function_unknown_token_KeyError_witness :
  fst (mock_function ticking_clock one_token_verify_jwt false
         {["groups" := ["G1"]]} api_request "/admin/users" "alice-token"
         (world0, []))
  = Raise (KeyError "user").
Proof.
  apply (mock_function_unknown_token_KeyError ticking_clock one_token_verify_jwt
           false {["groups" := ["G1"]]} api_request "/admin/users" "alice-token"
           (world0, []) alice_claims);
    [discriminate|reflexivity|reflexivity|by vm_compute].
Defined.

(** [alice]'s token while its row ["t10"] is there, on an endpoint for
    group G1. *)
Lemma mock_function_known_token_witness :
  fst (mock_function ticking_clock one_token_verify_jwt false
         {["groups" := ["G1"]]} api_request "/admin/users" "alice-token"
         (world3, []))
  = Ret (Answer CallEndpoint).
Proof.
  apply (mock_function_known_token ticking_clock one_token_verify_jwt
           false {["groups" := ["G1"]]} api_request "/admin/users" "alice-token"
           (world3, []) alice_claims (token_row "alice" 10));
    [discriminate|reflexivity|by vm_compute|].
  exists "groups", ["G1"], ["G1"; "G2"], "G1".
  split_and!; [by vm_compute|by vm_compute|by left|by left].
Defined.

Lemma generate_google_oauth_token_masks_provider_error_witness :
  generate_google_oauth_token ticking_clock numbered_uuid failing_provider
    closed_registration None (Some "code-from-google") world0
  = (Raise (HTTPException 400 (Detail "Unable to validate social login")),
     set_log (fun l => (l ++ [(ERROR, ErrorValidatingSocialLogin
                                        (ValueError "Token used too late"))])%list)
       world0).
Proof.
  apply (generate_google_oauth_token_masks_provider_error ticking_clock numbered_uuid
           failing_provider closed_registration None (Some "code-from-google")
           world0 google_config [] "code-from-google"); reflexivity.
Defined.


Lemma generate_google_oauth_token_pending_activation_witness :
  generate_google_oauth_token ticking_clock numbered_uuid newcomer_provider
    activation_registration None (Some "code-from-google") world0
  = (Ret (Pending "Activation email sent to nina@example.org"), world0).
Proof.
  apply (generate_google_oauth_token_pending_activation ticking_clock numbered_uuid
           newcomer_provider activation_registration None (Some "code-from-google")
           world0 world0 google_config [] "code-from-google"
           {| id_email := Some "nina@example.org"; id_email_verified := Some true;
              id_given_name := Some "Nina"; id_family_name := Some "New" |}
           "nina@example.org" "Nina" "New"
           "Activation email sent to nina@example.org");
    try reflexivity; discriminate.
Defined.

Lemma generate_google_oauth_token_needs_names_witness :
  generate_google_oauth_token ticking_clock numbered_uuid nameless_provider
    activation_registration None (Some "code-from-google") world0
  = (Raise (KeyError "given_name"), world0).
Proof.
  apply (generate_google_oauth_token_needs_names ticking_clock numbered_uuid
           nameless_provider activation_registration None (Some "code-from-google")
           world0 google_config [] "code-from-google"
           {| id_email := Some "nina@example.org"; id_email_verified := Some true;
              id_given_name := None; id_family_name := None |}
           "nina@example.org");
    try reflexivity; try discriminate. by left.
Defined.

Lemma key_setup_requires_KEY_PATH_witness :
  key_setup (fun n => n) Z.of_nat brace_from_json brace_export_private
    brace_export_public pathless_host
  = (Raise (FileNotFoundError ""), pathless_host).
Proof.
  apply (key_setup_requires_KEY_PATH (fun n => n) Z.of_nat brace_from_json
           brace_export_private brace_export_public pathless_host "test_key");
    [reflexivity|left; reflexivity|by vm_compute|reflexivity].
Defined.

(** The line of a key file ends at a carriage return as well: the key
    before it is loaded and nothing is written. *)
Lemma key_setup_reads_to_carriage_return :
  readline ("{private:old}" ++ String "013" "not a key")
  = "{private:old}" ++ String "010" ""
  ∧ key_setup (fun n => n) Z.of_nat brace_from_json brace_export_private
      brace_export_public return_host
    = (Ret tt,
       set_host_privkey {| kid := "{private:old}" ++ String "010" ""; secret := 0 |}
         return_host).
Proof. split; by vm_compute. Qed.

(** A key name that points into a directory which does not exist stops the
    first start at the marker file. *)
Lemma key_setup_name_in_missing_directory :
  fst (key_setup (fun n => n) Z.of_nat brace_from_json brace_export_private
         brace_export_public stray_name_host)
  = Raise (FileNotFoundError "keys/sub/test_key").
Proof. by vm_compute. Qed.



Lemma key_setup_loads_valid_key_witness :
  key_setup (fun n => n) Z.of_nat brace_from_json brace_export_private
    brace_export_public booted_host
  = (Ret tt, set_host_privkey {| kid := "{private:old}"; secret := 0 |} booted_host).
Proof.
  apply (key_setup_loads_valid_key (fun n => n) Z.of_nat brace_from_json
           brace_export_private brace_export_public booted_host "keys" "test_key"
           {| content := ""; readable := true; writable := true |}
           {| content := "{private:old}"; readable := true; writable := true |}
           {| content := "{public:old}"; readable := true; writable := true |}
           {| kid := "{private:old}"; secret := 0 |});
    try reflexivity; try discriminate; by vm_compute.
Defined.

(** On [damaged_host] the public-key file still reads ["{public:old}"]
    after the private key was replaced. *)
Lemma key_setup_keeps_public_file_witness :
  ∃ (h' : Host) (k : JWK),
    key_setup (fun n => n) Z.of_nat brace_from_json brace_export_private
      brace_export_public damaged_host = (Ret tt, h')
    ∧ host_privkey h' = Some k
    ∧ secret k = 56
    ∧ files h' !! "keys/test_key.pub"
      = Some {| content := "{public:old}"; readable := true; writable := true |}.
Proof.
  apply (key_setup_keeps_public_file (fun n => n) Z.of_nat brace_from_json
           brace_export_private brace_export_public damaged_host "keys" "test_key"
           {| content := ""; readable := true; writable := true |}
           {| content := "%%% damaged %%%"; readable := true; writable := true |}
           {| content := "{public:old}"; readable := true; writable := true |});
    try (by vm_compute).
  right. by exists (ValueError "Expecting value").
Defined.

(** A session cookie whose value ends in ["=="]. *)
Lemma detect_token_in_cookie_malformed_cookie_witness :
  ∃ msg, detect_token_in_cookie
           [("host", "example.org"); ("cookie", "session=YWJj==; token=abc")] "/admin"
         = Raise (ValueError msg).
Proof.
  apply (detect_token_in_cookie_malformed_cookie
           [("host", "example.org"); ("cookie", "session=YWJj==; token=abc")]
           "/admin" "cookie" "session=YWJj==; token=abc" "session=YWJj==").
  - right. by left.
  - reflexivity.
  - by left.
  - by vm_compute.
Defined.

Lemma detect_token_in_cookie_without_cookie_witness :
  detect_token_in_cookie [("host", "example.org"); ("accept", "text/html")] "/admin"
  = Ret ([AppendScopeHeaders ("authorization", "bearer NO_TOKEN")], CallNext).
Proof.
  apply (detect_token_in_cookie_without_cookie
           [("host", "example.org"); ("accept", "text/html")] "/admin").
  intros name value Hin.
  apply elem_of_cons in Hin as [[= -> ->]|Hin]; [reflexivity|].
  apply elem_of_cons in Hin as [[= -> ->]|Hin]; [reflexivity|].
  by inversion Hin.
Defined.
